(** * meshpy: viewsphere discretisation, virtual camera and stable poses

    A shallow embedding of [meshpy/mesh_renderer.py] and
    [meshpy/stable_pose.py].

    Numbers.  The Python code computes with floats; every statement below
    reads them as real numbers (exact arithmetic), so rounding, [nan] and
    [inf] are outside the model.  Integer counts are [Z].

    Effects.  Exceptions are a [result] type; [while] loops take fuel;
    mutation of caller-owned [RigidTransform] objects goes through an
    explicit object store indexed by references. *)

From Stdlib Require Import Reals Lra Lia Psatz RNsatz List ZArith String Bool.
Import ListNotations.

Local Open Scope R_scope.

(* ================================================================== *)
(** * Python-level plumbing                                            *)
(* ================================================================== *)

(** The exceptions the modelled code can raise. *)
Inductive exn : Type :=
| ValueError (msg : string)
| ZeroDivisionError
| UnboundLocalError (var : string).

(** Outcome of running a piece of Python with a fuel bound on its loops. *)
Inductive result (A : Type) : Type :=
| Ok (a : A)
| Raise (e : exn)
| OutOfFuel.

Arguments Ok {A} a.
Arguments Raise {A} e.
Arguments OutOfFuel {A}.

Definition bind {A B : Type} (m : result A) (k : A -> result B) : result B :=
  match m with
  | Ok a => k a
  | Raise e => Raise e
  | OutOfFuel => OutOfFuel
  end.

Notation "x <- m ;; k" := (bind m (fun x => k))
  (at level 61, m at next level, right associativity).
Notation "' p <- m ;; k" := (bind m (fun x => match x with p => k end))
  (at level 61, p pattern, m at next level, right associativity).

(** Float comparisons, as booleans. *)
Definition Rleb (x y : R) : bool := if Rle_dec x y then true else false.
Definition Rltb (x y : R) : bool := if Rlt_dec x y then true else false.
Definition Rgtb (x y : R) : bool := Rltb y x.
Definition Reqb (x y : R) : bool := if Req_dec_T x y then true else false.

(** [a / n] for a float [a] and an int [n]: Python raises on a zero divisor. *)
Definition py_div (a : R) (n : Z) : result R :=
  if (n =? 0)%Z then Raise ZeroDivisionError else Ok (a / IZR n).

(** [while cond: body] over a loop state [St]. *)
Fixpoint while {St : Type} (fuel : nat) (cond : St -> bool)
         (body : St -> result St) (s : St) : result St :=
  match fuel with
  | O => OutOfFuel
  | S fuel' =>
      if cond s then s' <- body s ;; while fuel' cond body s' else Ok s
  end.

(** An [if / elif / ...] chain without [else]: the first guard that holds
    selects the value, and no value is bound when none holds. *)
Fixpoint first_true {A : Type} (cases : list (bool * A)) : option A :=
  match cases with
  | [] => None
  | (true, a) :: _ => Some a
  | (false, _) :: rest => first_true rest
  end.

(* ================================================================== *)
(** * 3-vectors and 3x3 matrices (the numpy arrays of the source)      *)
(* ================================================================== *)

Record vec3 : Type := Vec3 { vx : R; vy : R; vz : R }.

(** A 3x3 matrix, stored by rows. *)
Record mat3 : Type := Mat3 { row0 : vec3; row1 : vec3; row2 : vec3 }.

Definition zeros3 : vec3 := Vec3 0 0 0.
Definition vneg (v : vec3) : vec3 := Vec3 (- vx v) (- vy v) (- vz v).
Definition vadd (u v : vec3) : vec3 :=
  Vec3 (vx u + vx v) (vy u + vy v) (vz u + vz v).
Definition vdiv (v : vec3) (s : R) : vec3 := Vec3 (vx v / s) (vy v / s) (vz v / s).
Definition vdot (u v : vec3) : R := vx u * vx v + vy u * vy v + vz u * vz v.

(** [np.linalg.norm] *)
Definition norm (v : vec3) : R := sqrt (vx v ^ 2 + vy v ^ 2 + vz v ^ 2).

(** [np.cross] *)
Definition cross (u v : vec3) : vec3 :=
  Vec3 (vy u * vz v - vz u * vy v)
       (vz u * vx v - vx u * vz v)
       (vx u * vy v - vy u * vx v).

(** [np.c_[a, b, c]]: the matrix whose columns are [a], [b], [c]. *)
Definition c_ (a b c : vec3) : mat3 :=
  Mat3 (Vec3 (vx a) (vx b) (vx c))
       (Vec3 (vy a) (vy b) (vy c))
       (Vec3 (vz a) (vz b) (vz c)).

Definition col0 (m : mat3) : vec3 := Vec3 (vx (row0 m)) (vx (row1 m)) (vx (row2 m)).
Definition col1 (m : mat3) : vec3 := Vec3 (vy (row0 m)) (vy (row1 m)) (vy (row2 m)).
Definition col2 (m : mat3) : vec3 := Vec3 (vz (row0 m)) (vz (row1 m)) (vz (row2 m)).

Definition transpose (m : mat3) : mat3 := Mat3 (col0 m) (col1 m) (col2 m).

Definition identity3 : mat3 := Mat3 (Vec3 1 0 0) (Vec3 0 1 0) (Vec3 0 0 1).

(** Matrix-vector and matrix-matrix product ([ndarray.dot]). *)
Definition mvec (m : mat3) (v : vec3) : vec3 :=
  Vec3 (vdot (row0 m) v) (vdot (row1 m) v) (vdot (row2 m) v).

Definition mmul (a b : mat3) : mat3 :=
  let row (r : vec3) := Vec3 (vdot r (col0 b)) (vdot r (col1 b)) (vdot r (col2 b)) in
  Mat3 (row (row0 a)) (row (row1 a)) (row (row2 a)).

(** [np.linalg.det] of a 3x3 matrix. *)
Definition det (m : mat3) : R := vdot (row0 m) (cross (row1 m) (row2 m)).

Definition unit_vec (v : vec3) : Prop := vdot v v = 1.

Definition orthonormal (m : mat3) : Prop := mmul (transpose m) m = identity3.

(** A proper rotation: orthonormal with determinant [+1]. *)
Definition proper_rotation (m : mat3) : Prop := orthonormal m /\ det m = 1.

(* ================================================================== *)
(** * External collaborators                                           *)
(* ================================================================== *)

(** Modelled from the spec: [alan.core.RigidTransform] is an external type
    (spec section 3): a rotation, a translation and the names of the source
    and target frames. *)
Record RigidTransform : Type := mkRigidTransform {
  rotation : mat3;
  translation : vec3;
  from_frame : string;
  to_frame : string
}.

(** Modelled from the spec: "inversion is transpose-of-rotation plus negated,
    rotated translation"; the frames swap. *)
Definition inverse (T : RigidTransform) : RigidTransform :=
  {| rotation := transpose (rotation T);
     translation := vneg (mvec (transpose (rotation T)) (translation T));
     from_frame := to_frame T;
     to_frame := from_frame T |}.

(** Modelled from the spec: "composition is matrix multiplication of
    homogeneous 4x4 forms"; [dot A B] maps from [B]'s source frame to [A]'s
    target frame. *)
Definition dot (A B : RigidTransform) : RigidTransform :=
  {| rotation := mmul (rotation A) (rotation B);
     translation := vadd (mvec (rotation A) (translation B)) (translation A);
     from_frame := from_frame B;
     to_frame := to_frame A |}.

(** The attribute assignment [T.from_frame = f]. *)
Definition with_from_frame (T : RigidTransform) (f : string) : RigidTransform :=
  {| rotation := rotation T;
     translation := translation T;
     from_frame := f;
     to_frame := to_frame T |}.

(** Modelled from the spec: the render modes of [alan.rgbd.RenderMode]
    (spec section 6).  The three modes the renderer wraps are named; any
    other value a caller passes is [OtherMode], carrying the text that
    ['%s' % render_mode] prints. *)
Inductive RenderMode : Type :=
| SEGMASK
| DEPTH
| SCALED_DEPTH
| OtherMode (repr : string).

(** Modelled from the spec: the camera intrinsics (spec section 6) expose
    [height], [width], a projection matrix and a frame label. *)
Record CameraIntrinsics : Type := mkCameraIntrinsics {
  proj_matrix : mat3;
  height : Z;
  width : Z;
  frame : string
}.

(* ================================================================== *)
(** * meshpy/stable_pose.py                                            *)
(* ================================================================== *)

(** [stp_id] is a string, or the integer default [-1]. *)
Inductive stp_ident : Type :=
| IdInt (z : Z)
| IdStr (s : string).

Record StablePose : Type := mkStablePose {
  p : R;
  r : mat3;
  x0 : vec3;
  id : stp_ident
}.

(** [self.r[1,:] = -self.r[1,:]] *)
Definition negate_row1 (m : mat3) : mat3 :=
  Mat3 (row0 m) (vneg (row1 m)) (row2 m).

(** [StablePose.__init__] *)
Definition StablePose_init (p : R) (r : mat3) (x0 : vec3) (stp_id : stp_ident)
  : StablePose :=
  let self := mkStablePose p r x0 stp_id in
  (* fix stable pose bug *)
  if Rltb (Rabs (det r + 1)) (1 / 100)
  then mkStablePose p (negate_row1 r) x0 stp_id
  else self.

(** [StablePose.T_obj_table] *)
Definition T_obj_table (self : StablePose) : RigidTransform :=
  mkRigidTransform (r self) zeros3 "obj" "table".

(* ================================================================== *)
(** * meshpy/mesh_renderer.py: ViewsphereDiscretizer                   *)
(* ================================================================== *)

Record ViewsphereDiscretizer : Type := mkViewsphereDiscretizer {
  min_radius : R;
  max_radius : R;
  num_radii : Z;
  min_az : R;
  max_az : R;
  num_az : Z;
  min_elev : R;
  max_elev : R;
  num_elev : Z;
  min_roll : R;
  max_roll : R;
  num_roll : Z
}.

(** The error the spec calls [InvalidDiscretization]: the [ValueError] of
    the constructor. *)
Definition InvalidDiscretization : exn :=
  ValueError "Discretization must be at least one in each dimension".

(** [ViewsphereDiscretizer.__init__]; the argument order is the source's. *)
Definition ViewsphereDiscretizer_init
    (min_radius max_radius : R) (num_radii : Z)
    (min_elev max_elev : R) (num_elev : Z)
    (min_az max_az : R) (num_az : Z)
    (min_roll max_roll : R) (num_roll : Z) : result ViewsphereDiscretizer :=
  if ((num_radii <? 1) || (num_az <? 1) || (num_elev <? 1))%Z
  then Raise InvalidDiscretization
  else Ok {| min_radius := min_radius; max_radius := max_radius;
             num_radii := num_radii;
             min_az := min_az; max_az := max_az; num_az := num_az;
             min_elev := min_elev; max_elev := max_elev; num_elev := num_elev;
             min_roll := min_roll; max_roll := max_roll; num_roll := num_roll |}.

(** [ViewsphereDiscretizer.sph2cart] *)
Definition sph2cart (r az elev : R) : R * R * R :=
  let x := r * cos az * sin elev in
  let y := r * sin az * sin elev in
  let z := r * cos elev in
  (x, y, z).

(** The eight guarded assignments to [az] in [cart2sph], in source order. *)
Definition az_cases (x y : R) : list (bool * R) :=
  [ (Rgtb x 0 && Rgtb y 0, atan (y / x));
    (Rgtb x 0 && Rltb y 0, 2 * PI - atan (- y / x));
    (Rltb x 0 && Rgtb y 0, PI - atan (- y / x));
    (Rltb x 0 && Rltb y 0, PI + atan (y / x));
    (Reqb x 0 && Rgtb y 0, PI / 2);
    (Reqb x 0 && Rltb y 0, 3 * PI / 2);
    (Reqb y 0 && Rgtb x 0, 0);
    (Reqb y 0 && Rltb x 0, PI) ].

(** The guards of [cart2sph] that hold at [(x, y)]. *)
Definition az_branches_taken (x y : R) : list (bool * R) :=
  filter fst (az_cases x y).

(** [ViewsphereDiscretizer.cart2sph]: [az] stays unbound when no guard
    holds, and the [return] then raises. *)
Definition cart2sph (x y z : R) : result (R * R * R) :=
  let r := sqrt (x ^ 2 + y ^ 2 + z ^ 2) in
  let az := first_true (az_cases x y) in
  let elev := acos (z / r) in
  match az with
  | Some az => Ok (r, az, elev)
  | None => Raise (UnboundLocalError "az")
  end.

(** The body of the innermost loop of [object_to_camera_poses]: the pose
    appended for one grid point. *)
Definition camera_pose (radius az elev roll : R) : RigidTransform :=
  (* generate camera center from spherical coords *)
  let '(cx, cy, cz) := sph2cart radius az elev in
  let camera_center_obj := Vec3 cx cy cz in
  let camera_z_obj := vdiv (vneg camera_center_obj) (norm camera_center_obj) in
  (* find the canonical camera x and y axes *)
  let camera_x_par_obj := Vec3 (vy camera_z_obj) (- vx camera_z_obj) 0 in
  let camera_x_par_obj :=
    if Reqb (norm camera_x_par_obj) 0 then Vec3 1 0 0 else camera_x_par_obj in
  let camera_x_par_obj := vdiv camera_x_par_obj (norm camera_x_par_obj) in
  let camera_y_par_obj := cross camera_z_obj camera_x_par_obj in
  let camera_y_par_obj := vdiv camera_y_par_obj (norm camera_y_par_obj) in
  let '(camera_x_par_obj, camera_y_par_obj) :=
    if Rgtb (vz camera_y_par_obj) 0 then
      let camera_x_par_obj := vneg camera_x_par_obj in
      let camera_y_par_obj := cross camera_z_obj camera_x_par_obj in
      let camera_y_par_obj := vdiv camera_y_par_obj (norm camera_y_par_obj) in
      (camera_x_par_obj, camera_y_par_obj)
    else (camera_x_par_obj, camera_y_par_obj) in
  (* rotate by the roll *)
  let R_obj_camera_par := c_ camera_x_par_obj camera_y_par_obj camera_z_obj in
  let R_camera_par_camera :=
    Mat3 (Vec3 (cos roll) (- sin roll) 0)
         (Vec3 (sin roll) (cos roll) 0)
         (Vec3 0 0 1) in
  let R_obj_camera := mmul R_obj_camera_par R_camera_par_camera in
  let t_obj_camera := camera_center_obj in
  (* create final transform *)
  let T_obj_camera := mkRigidTransform R_obj_camera t_obj_camera "camera" "obj" in
  inverse T_obj_camera.

(** [ViewsphereDiscretizer.object_to_camera_poses]; every loop state is the
    loop variable together with the list built so far.  The loop variables
    and steps are exact reals here: sample counts and lengths proved below
    are those of exact arithmetic, which rounded floats need not reproduce. *)
Definition object_to_camera_poses (fuel : nat) (self : ViewsphereDiscretizer)
  : result (list RigidTransform) :=
  (* compute increments in radial coordinates *)
  radius_inc <-
    (if Reqb (max_radius self) (min_radius self) then Ok 1
     else if (num_radii self =? 1)%Z
          then Ok (max_radius self - min_radius self + 1)
          else py_div (max_radius self - min_radius self) (num_radii self - 1)) ;;
  az_inc <- py_div (max_az self - min_az self) (num_az self) ;;
  elev_inc <-
    (if Reqb (max_elev self) (min_elev self) then Ok 1
     else if (num_elev self =? 1)%Z
          then Ok (max_elev self - min_elev self + 1)
          else py_div (max_elev self - min_elev self) (num_elev self - 1)) ;;
  roll_inc <- py_div (max_roll self - min_roll self) (num_roll self) ;;
  (* create a pose for each set of spherical coords *)
  '(_, poses) <-
    while fuel (fun '(radius, _) => Rleb radius (max_radius self))
      (fun '(radius, poses) =>
         '(_, poses) <-
           while fuel (fun '(elev, _) => Rleb elev (max_elev self))
             (fun '(elev, poses) =>
                '(_, poses) <-
                  while fuel (fun '(az, _) => Rltb az (max_az self))
                    (fun '(az, poses) =>
                       '(_, poses) <-
                         while fuel (fun '(roll, _) => Rltb roll (max_roll self))
                           (fun '(roll, poses) =>
                              Ok (roll + roll_inc,
                                  poses ++ [camera_pose radius az elev roll]))
                           (min_roll self, poses) ;;
                       Ok (az + az_inc, poses))
                    (min_az self, poses) ;;
                Ok (elev + elev_inc, poses))
             (min_elev self, poses) ;;
         Ok (radius + radius_inc, poses))
      (min_radius self, []) ;;
  Ok poses.

(* ================================================================== *)
(** * The grid of the viewsphere, as the spec describes it             *)
(* ================================================================== *)

(** The values a loop variable takes: [n] samples from [start], each the
    previous one plus [inc]. *)
Fixpoint samples (start inc : R) (n : nat) : list R :=
  match n with
  | O => []
  | S n' => start :: samples (start + inc) inc n'
  end.

(** Step of an inclusive axis (radius, elevation). *)
Definition inclusive_step (lo hi : R) (num : Z) : R :=
  if Reqb hi lo then 1
  else if (num =? 1)%Z then hi - lo + 1
       else (hi - lo) / IZR (num - 1).

(** Step of a half-open axis (azimuth, roll). *)
Definition half_open_step (lo hi : R) (num : Z) : R := (hi - lo) / IZR num.

(** Samples an inclusive axis realises: none on an empty range, one on a
    single point, else the configured count. *)
Definition inclusive_count (lo hi : R) (num : Z) : nat :=
  if Rltb hi lo then 0%nat
  else if Reqb hi lo then 1%nat else Z.to_nat num.

(** Samples a half-open axis realises: the configured count on a non-empty
    range, none otherwise. *)
Definition half_open_count (lo hi : R) (num : Z) : nat :=
  if Rltb lo hi then Z.to_nat num else 0%nat.

(** The poses of the grid with the given per-axis sample counts, radius
    outermost, then elevation, then azimuth, roll innermost. *)
Definition grid (self : ViewsphereDiscretizer) (n_radius n_elev n_az n_roll : nat)
  : list RigidTransform :=
  flat_map (fun radius =>
    flat_map (fun elev =>
      flat_map (fun az =>
        map (fun roll => camera_pose radius az elev roll)
            (samples (min_roll self)
               (half_open_step (min_roll self) (max_roll self) (num_roll self))
               n_roll))
        (samples (min_az self)
           (half_open_step (min_az self) (max_az self) (num_az self)) n_az))
      (samples (min_elev self)
         (inclusive_step (min_elev self) (max_elev self) (num_elev self)) n_elev))
    (samples (min_radius self)
       (inclusive_step (min_radius self) (max_radius self) (num_radii self))
       n_radius).

(** A valid configuration, as the claims read it. *)
Definition valid (self : ViewsphereDiscretizer) : Prop :=
  (1 <= num_radii self)%Z /\ (1 <= num_elev self)%Z /\
  (1 <= num_az self)%Z /\ (1 <= num_roll self)%Z /\
  min_radius self <= max_radius self /\ min_elev self <= max_elev self /\
  min_az self <= max_az self /\ min_roll self <= max_roll self.

(** The per-axis counts the spec states: [1] when [min == max] on the radius
    or elevation axis and the configured number otherwise; always the
    configured number for azimuth and roll. *)
Definition stated_count (lo hi : R) (num : Z) : nat :=
  if Reqb hi lo then 1%nat else Z.to_nat num.

Definition stated_length (self : ViewsphereDiscretizer) : nat :=
  (stated_count (min_radius self) (max_radius self) (num_radii self)
   * stated_count (min_elev self) (max_elev self) (num_elev self)
   * Z.to_nat (num_az self) * Z.to_nat (num_roll self))%nat.

(** Two radii and two elevations, the first elevation at the pole. *)
Definition example_sphere : ViewsphereDiscretizer :=
  mkViewsphereDiscretizer 1 2 2 0 1 1 0 1 2 0 1 1.

(** The degenerate azimuth range: a single viewpoint is asked for with
    [min_az = max_az]. *)
Definition example_discretizer : ViewsphereDiscretizer :=
  mkViewsphereDiscretizer 1 1 1 0 0 1 1 1 1 0 1 1.

(* ================================================================== *)
(** * meshpy/mesh_renderer.py: VirtualCamera                           *)
(* ================================================================== *)

(** ** Caller-owned transforms

    The transforms a caller passes to [wrapped_images] are Python objects
    the call may mutate.  They live in a [store]; a Python list of
    transforms is a list of references into it, and [copy.copy] of such a
    list is the same list of references.  Transforms created inside a
    call ([dot], [inverse]) are fresh objects nobody else holds; they are
    carried by value. *)
Definition loc : Type := nat.
Definition store : Type := loc -> RigidTransform.

Definition store_set (h : store) (l : loc) (T : RigidTransform) : store :=
  fun l' => if Nat.eqb l' l then T else h l'.

Inductive log_entry : Type :=
| LogDebug (msg : string)
| LogWarning (msg : string).

Record VirtualCamera : Type := mkVirtualCamera {
  _camera_intr : CameraIntrinsics
}.

(** A 3x4 projection matrix [K . [R | t]], as its left 3x3 block and its
    last column. *)
Definition mat34 : Type := (mat3 * vec3)%type.

Section Rendering.

(** Opaque collaborators: image buffers, the mesh with its vertex and
    triangle arrays, the rasteriser [meshrender.render_mesh], the elapsed
    time it reports, and the image conversions of [alan.rgbd]. *)
Variable ndarray : Type.
Variable Mesh3D : Type.
Variable vertices : Mesh3D -> ndarray.
Variable triangles : Mesh3D -> ndarray.
Variable render_mesh :
  list mat34 -> Z -> Z -> ndarray -> ndarray -> bool ->
  list ndarray * list ndarray.
Variable elapsed : string.
Variable first_channel : ndarray -> ndarray.

Inductive Image : Type :=
| BinaryImage (data : ndarray) (frame : string)
| DepthImage (data : ndarray) (frame : string)
| ColorImage (data : ndarray) (frame : string).

Variable to_color : Image -> Image.

Record ObjectRender : Type := mkObjectRender {
  image : Image;
  T_camera_obj : RigidTransform
}.

(** The rasteriser's contract (spec section 6): one binary and one depth
    image per projection matrix. *)
Definition renderer_contract : Prop :=
  forall projections h w v t dbg,
    List.length (fst (render_mesh projections h w v t dbg))
      = List.length projections /\
    List.length (snd (render_mesh projections h w v t dbg))
      = List.length projections.

(** [VirtualCamera.images] *)
Definition images (self : VirtualCamera) (mesh : Mesh3D)
    (object_to_camera_poses : list RigidTransform) (debug : bool)
  : list log_entry * (list ndarray * list ndarray) :=
  (* get mesh spec as numpy arrays *)
  let vertex_arr := vertices mesh in
  let tri_arr := triangles mesh in
  (* generate set of projection matrices *)
  let projections :=
    map (fun T_camera_obj =>
           let R := rotation T_camera_obj in
           let t := translation T_camera_obj in
           (mmul (proj_matrix (_camera_intr self)) R,
            mvec (proj_matrix (_camera_intr self)) t))
        object_to_camera_poses in
  (* render images for each *)
  let '(binary_ims, depth_ims) :=
    render_mesh projections
                (height (_camera_intr self)) (width (_camera_intr self))
                vertex_arr tri_arr debug in
  ([LogDebug ("Rendering took " ++ elapsed ++ " sec")%string],
   (binary_ims, depth_ims)).

(** The loop of lines 329-331: relabel each caller-owned transform and
    compose it with the stable pose. *)
Fixpoint premultiply (T_obj_stp : RigidTransform)
         (stp_to_camera_poses : list loc) (h : store)
  : store * list RigidTransform :=
  match stp_to_camera_poses with
  | [] => (h, [])
  | T_stp_camera :: rest =>
      let h := store_set h T_stp_camera
                         (with_from_frame (h T_stp_camera) "stp") in
      let composed := dot (h T_stp_camera) T_obj_stp in
      let '(h, object_to_camera_poses) := premultiply T_obj_stp rest h in
      (h, composed :: object_to_camera_poses)
  end.

(** Lines 321-331 of [wrapped_images]: the store after the step and the
    transforms handed to [images], i.e. those the projection matrices are
    built from. *)
Definition projection_poses (h : store) (object_to_camera_poses : list loc)
    (stable_pose : option StablePose) : store * list RigidTransform :=
  match stable_pose with
  | Some sp =>
      let T_obj_stp := mkRigidTransform (r sp) zeros3 "obj" "stp" in
      premultiply T_obj_stp object_to_camera_poses h
  | None => (h, map h object_to_camera_poses)
  end.

(** The dispatch on [render_mode]; [None] is the unsupported branch. *)
Definition wrap (self : VirtualCamera) (render_mode : RenderMode)
    (binary_ims depth_ims : list ndarray) : option (list Image) :=
  match render_mode with
  | SEGMASK =>
      Some (map (fun binary_im =>
                   BinaryImage (first_channel binary_im)
                               (frame (_camera_intr self)))
                binary_ims)
  | DEPTH =>
      Some (map (fun depth_im => DepthImage depth_im (frame (_camera_intr self)))
                depth_ims)
  | SCALED_DEPTH =>
      Some (map (fun depth_im => to_color (DepthImage depth_im "camera"))
                depth_ims)
  | OtherMode _ => None
  end.

Definition render_mode_repr (render_mode : RenderMode) : string :=
  match render_mode with
  | SEGMASK => "segmask"
  | DEPTH => "depth"
  | SCALED_DEPTH => "scaled_depth"
  | OtherMode repr => repr
  end.

(** [VirtualCamera.wrapped_images].  The result is the store after the
    call, the log records emitted, and the returned value ([None] is
    Python's [None]). *)
Definition wrapped_images (self : VirtualCamera) (mesh : Mesh3D)
    (h : store) (object_to_camera_poses : list loc)
    (render_mode : RenderMode) (stable_pose : option StablePose)
  : store * list log_entry * option (list ObjectRender) :=
  let stp_to_camera_poses := object_to_camera_poses in
  (* pre-multiply the stable pose *)
  let '(h, projected) := projection_poses h object_to_camera_poses stable_pose in
  (* render both image types *)
  let '(log, (binary_ims, depth_ims)) := images self mesh projected false in
  (* convert to image wrapper classes *)
  match wrap self render_mode binary_ims depth_ims with
  | None =>
      (h,
       log ++ [LogWarning ("Render mode " ++ render_mode_repr render_mode
                           ++ " not supported. Returning None")%string],
       None)
  | Some images =>
      (* create rendered images *)
      let object_to_camera_poses :=
        match stable_pose with
        | Some _ => map h stp_to_camera_poses
        | None => projected
        end in
      let rendered_images :=
        map (fun '(image, T_obj_camera) =>
               let T_camera_obj := inverse T_obj_camera in
               mkObjectRender image T_camera_obj)
            (combine images object_to_camera_poses) in
      (h, log, Some rendered_images)
  end.

Definition recognized (render_mode : RenderMode) : Prop :=
  render_mode = SEGMASK \/ render_mode = DEPTH \/ render_mode = SCALED_DEPTH.

(** The pairing the spec describes: the call returns a list and its i-th
    result carries the inverse of the i-th transform used for projection. *)
Definition paired_with_projection_inverse (self : VirtualCamera)
    (mesh : Mesh3D) (h : store) (object_to_camera_poses : list loc)
    (render_mode : RenderMode) (stable_pose : option StablePose) : Prop :=
  exists rendered_images,
    snd (wrapped_images self mesh h object_to_camera_poses render_mode stable_pose)
      = Some rendered_images /\
    map T_camera_obj rendered_images =
      map inverse (snd (projection_poses h object_to_camera_poses stable_pose)).

End Rendering.

Arguments BinaryImage {ndarray} data frame.
Arguments DepthImage {ndarray} data frame.
Arguments ColorImage {ndarray} data frame.
Arguments mkObjectRender {ndarray} image T_camera_obj.
Arguments image {ndarray} o.
Arguments T_camera_obj {ndarray} o.

(* ================================================================== *)
(** * A concrete scene, for the examples                               *)
(* ================================================================== *)

(** A rasteriser over unit buffers that honours its contract. *)
Definition flat_renderer (projections : list mat34) (h w : Z) (v t : unit)
    (dbg : bool) : list unit * list unit :=
  (map (fun _ => tt) projections, map (fun _ => tt) projections).

Definition example_camera : VirtualCamera :=
  mkVirtualCamera (mkCameraIntrinsics identity3 1 1 "camera").

(** One metre in front of the camera, axes aligned. *)
Definition example_pose : RigidTransform :=
  mkRigidTransform identity3 (Vec3 0 0 1) "obj" "camera".

Definition example_store : store := fun _ => example_pose.

(** A half turn about the z axis: a proper rotation. *)
Definition half_turn : mat3 :=
  Mat3 (Vec3 (-1) 0 0) (Vec3 0 (-1) 0) (Vec3 0 0 1).

Definition example_stable_pose : StablePose :=
  mkStablePose 1 half_turn zeros3 (IdInt (-1)).

Definition example_wrapped_images :=
  wrapped_images unit unit (fun _ => tt) (fun _ => tt) flat_renderer "0.000"
                 (fun a => a) (fun im => im).

(* ================================================================== *)
(** * Further code of the two files                                *)
(* ================================================================== *)

(** [R_camera_par_camera] of the source: the roll about the viewing axis. *)
Definition roll_matrix (roll : R) : mat3 :=
  Mat3 (Vec3 (cos roll) (- sin roll) 0)
       (Vec3 (sin roll) (cos roll) 0)
       (Vec3 0 0 1).

(** The camera centre of a grid point, as a vector. *)
Definition camera_center (radius az elev : R) : vec3 :=
  let '(x, y, z) := sph2cart radius az elev in Vec3 x y z.

(** A transform nobody reads: the content of unused references. *)
Definition unassigned : RigidTransform :=
  mkRigidTransform identity3 zeros3 "unassigned" "world".

(** The store of a list of transforms created for one call: the i-th
    reference holds the i-th transform. *)
Definition fresh_store (poses : list RigidTransform) : store :=
  fun l => nth l poses unassigned.

Definition fresh_refs (poses : list RigidTransform) : list loc :=
  seq 0 (List.length poses).

Section Viewsphere.

Variable ndarray : Type.
Variable Mesh3D : Type.
Variable vertices : Mesh3D -> ndarray.
Variable triangles : Mesh3D -> ndarray.
Variable render_mesh :
  list mat34 -> Z -> Z -> ndarray -> ndarray -> bool ->
  list ndarray * list ndarray.
Variable elapsed : string.
Variable first_channel : ndarray -> ndarray.
Variable to_color : Image ndarray -> Image ndarray.

(** [VirtualCamera.images_viewsphere] *)
Definition images_viewsphere (fuel : nat) (self : VirtualCamera) (mesh : Mesh3D)
    (vs_disc : ViewsphereDiscretizer)
  : result (list log_entry * (list ndarray * list ndarray)) :=
  poses <- object_to_camera_poses fuel vs_disc ;;
  Ok (images ndarray Mesh3D vertices triangles render_mesh elapsed
             self mesh poses false).

(** [VirtualCamera.wrapped_images_viewsphere]: the transforms are created
    for this call, so the store they live in is the call's own. *)
Definition wrapped_images_viewsphere (fuel : nat) (self : VirtualCamera)
    (mesh : Mesh3D) (vs_disc : ViewsphereDiscretizer)
    (render_mode : RenderMode) (stable_pose : option StablePose)
  : result (list log_entry * option (list (ObjectRender ndarray))) :=
  poses <- object_to_camera_poses fuel vs_disc ;;
  let '(_, log, rendered_images) :=
    wrapped_images ndarray Mesh3D vertices triangles render_mesh elapsed
                   first_channel to_color
                   self mesh (fresh_store poses) (fresh_refs poses)
                   render_mode stable_pose in
  Ok (log, rendered_images).

End Viewsphere.

(** A roll count below zero, on non-empty ranges. *)
Definition example_reversed_roll : ViewsphereDiscretizer :=
  mkViewsphereDiscretizer 1 1 1 0 1 1 0 0 1 0 1 (-1).

(** A roll count of zero. *)
Definition example_zero_roll : ViewsphereDiscretizer :=
  mkViewsphereDiscretizer 1 1 1 0 1 1 0 0 1 0 1 0.

(** The mirror image through the xy plane: orthonormal, determinant -1. *)
Definition reflection_z : mat3 :=
  Mat3 (Vec3 1 0 0) (Vec3 0 1 0) (Vec3 0 0 (-1)).

Definition example_images :=
  images unit unit (fun _ => tt) (fun _ => tt) flat_renderer "0.000".

Definition example_wrapped_images_viewsphere :=
  wrapped_images_viewsphere unit unit (fun _ => tt) (fun _ => tt) flat_renderer
    "0.000" (fun a => a) (fun im => im).

Definition example_images_viewsphere :=
  images_viewsphere unit unit (fun _ => tt) (fun _ => tt) flat_renderer "0.000".

(* ================================================================== *)
(** * Basic facts                                                      *)
(* ================================================================== *)

Lemma Rltb_true (x y : R) : x < y -> Rltb x y = true.
Proof. intros H. unfold Rltb. destruct (Rlt_dec x y); [reflexivity | contradiction]. Qed.

Lemma Rltb_false (x y : R) : ~ x < y -> Rltb x y = false.
Proof. intros H. unfold Rltb. destruct (Rlt_dec x y); [contradiction | reflexivity]. Qed.

Lemma Rleb_true (x y : R) : x <= y -> Rleb x y = true.
Proof. intros H. unfold Rleb. destruct (Rle_dec x y); [reflexivity | contradiction]. Qed.

Lemma Rleb_false (x y : R) : ~ x <= y -> Rleb x y = false.
Proof. intros H. unfold Rleb. destruct (Rle_dec x y); [contradiction | reflexivity]. Qed.

Lemma Reqb_true (x y : R) : x = y -> Reqb x y = true.
Proof. intros H. unfold Reqb. destruct (Req_dec_T x y); [reflexivity | contradiction]. Qed.

Lemma Reqb_false (x y : R) : x <> y -> Reqb x y = false.
Proof. intros H. unfold Reqb. destruct (Req_dec_T x y); [contradiction | reflexivity]. Qed.

Lemma Rgtb_true (x y : R) : y < x -> Rgtb x y = true.
Proof. apply Rltb_true. Qed.

Lemma Rgtb_false (x y : R) : ~ y < x -> Rgtb x y = false.
Proof. apply Rltb_false. Qed.

(** Decide every float comparison in the goal from the context. *)
Ltac decide_cmp :=
  repeat first
    [ rewrite Rltb_true by lra | rewrite Rltb_false by lra
    | rewrite Rgtb_true by lra | rewrite Rgtb_false by lra
    | rewrite Rleb_true by lra | rewrite Rleb_false by lra
    | rewrite Reqb_true by lra | rewrite Reqb_false by lra ].

(* ================================================================== *)
(** * The constructor of ViewsphereDiscretizer                         *)
(* ================================================================== *)

(** C6: the constructor raises its discretisation error exactly when
    [num_radii < 1], [num_az < 1] or [num_elev < 1]; otherwise, whatever
    [num_roll] is, it succeeds and stores the twelve arguments unchanged. *)
Theorem init_validates_three_counts
    (min_radius max_radius : R) (num_radii : Z)
    (min_elev max_elev : R) (num_elev : Z)
    (min_az max_az : R) (num_az : Z)
    (min_roll max_roll : R) (num_roll : Z) :
  let made := ViewsphereDiscretizer_init min_radius max_radius num_radii
                min_elev max_elev num_elev min_az max_az num_az
                min_roll max_roll num_roll in
  (made = Raise InvalidDiscretization <->
     (num_radii < 1 \/ num_az < 1 \/ num_elev < 1)%Z) /\
  (~ (num_radii < 1 \/ num_az < 1 \/ num_elev < 1)%Z ->
     made = Ok (mkViewsphereDiscretizer min_radius max_radius num_radii
                  min_az max_az num_az min_elev max_elev num_elev
                  min_roll max_roll num_roll)).
Proof.
  intros made. subst made. unfold ViewsphereDiscretizer_init.
  destruct (num_radii <? 1)%Z eqn:Hr;
    destruct (num_az <? 1)%Z eqn:Ha;
    destruct (num_elev <? 1)%Z eqn:He; cbn [orb];
    rewrite ?Z.ltb_lt, ?Z.ltb_ge in *;
    (split; [split; [intros E; try discriminate E; lia | intros; try reflexivity; lia]
            | intros; try reflexivity; lia]).
Qed.

(** A rejected and an accepted construction ([num_roll = -5] is accepted). *)
Lemma init_validates_three_counts_witness :
  ViewsphereDiscretizer_init 1 2 0 0 1 1 0 1 1 0 1 1 = Raise InvalidDiscretization /\
  ViewsphereDiscretizer_init 1 2 3 0 1 1 0 1 1 0 1 (-5)
    = Ok (mkViewsphereDiscretizer 1 2 3 0 1 1 0 1 1 0 1 (-5)).
Proof.
  split.
  - apply (proj1 (init_validates_three_counts 1 2 0 0 1 1 0 1 1 0 1 1)). lia.
  - apply (proj2 (init_validates_three_counts 1 2 3 0 1 1 0 1 1 0 1 (-5))). lia.
Defined.

(** C9: [num_roll] is not validated.  With the three validated counts at
    least one, construction succeeds for every [num_roll < 1]; and when
    [num_roll = 0] the call to [object_to_camera_poses] raises
    [ZeroDivisionError] at the roll step, which is not the constructor's
    discretisation error. *)
Theorem num_roll_unvalidated
    (rmin rmax : R) (nr : Z) (emin emax : R) (ne : Z)
    (amin amax : R) (na : Z) (romin romax : R) (nro : Z) :
  (1 <= nr)%Z -> (1 <= na)%Z -> (1 <= ne)%Z ->
  (nro < 1)%Z ->
  exists self,
    ViewsphereDiscretizer_init rmin rmax nr emin emax ne amin amax na
      romin romax nro = Ok self /\
    num_roll self = nro /\
    (nro = 0%Z ->
     forall fuel, object_to_camera_poses fuel self = Raise ZeroDivisionError) /\
    Raise (A := list RigidTransform) ZeroDivisionError <> Raise InvalidDiscretization.
Proof.
  intros Hr Ha He Hroll.
  eexists. split; [|split; [|split]].
  - unfold ViewsphereDiscretizer_init.
    replace (nr <? 1)%Z with false by (symmetry; apply Z.ltb_ge; lia).
    replace (na <? 1)%Z with false by (symmetry; apply Z.ltb_ge; lia).
    replace (ne <? 1)%Z with false by (symmetry; apply Z.ltb_ge; lia).
    reflexivity.
  - reflexivity.
  - intros -> fuel. unfold object_to_camera_poses, py_div.
    cbn [min_radius max_radius num_radii min_az max_az num_az
         min_elev max_elev num_elev min_roll max_roll num_roll].
    replace (na =? 0)%Z with false by (symmetry; apply Z.eqb_neq; lia).
    destruct (Reqb rmax rmin);
      destruct (Reqb emax emin);
      destruct (nr =? 1)%Z eqn:E1;
      destruct (ne =? 1)%Z eqn:E2;
      rewrite ?Z.eqb_neq in *;
      try replace (nr - 1 =? 0)%Z with false by (symmetry; apply Z.eqb_neq; lia);
      try replace (ne - 1 =? 0)%Z with false by (symmetry; apply Z.eqb_neq; lia);
      reflexivity.
  - discriminate.
Qed.

(** A discretiser built with [num_roll = 0]. *)
Lemma num_roll_unvalidated_witness :
  exists self,
    ViewsphereDiscretizer_init 1 2 3 0 1 2 0 1 4 0 1 0 = Ok self /\
    num_roll self = 0%Z /\
    (0%Z = 0%Z ->
     forall fuel, object_to_camera_poses fuel self = Raise ZeroDivisionError) /\
    Raise (A := list RigidTransform) ZeroDivisionError <> Raise InvalidDiscretization.
Proof.
  apply (num_roll_unvalidated 1 2 3 0 1 2 0 1 4 0 1 0); lia.
Defined.

(* ================================================================== *)
(** * StablePose                                                       *)
(* ================================================================== *)

Lemma det_negate_row1 (m : mat3) : det (negate_row1 m) = - det m.
Proof. destruct m as [[a b c] [d e f] [g h i]]. unfold det, negate_row1, vdot, cross, vneg. cbn. ring. Qed.

(** C4: the constructor negates row 1 of [r] exactly when
    [|det r + 1| < 0.01], the repaired rotation then has a determinant within
    [0.01] of [+1]; otherwise [r] is kept; [p], [x0] and [id] are stored as
    given in both cases. *)
Theorem stable_pose_row_flip (p0 : R) (m : mat3) (c : vec3) (i : stp_ident) :
  let sp := StablePose_init p0 m c i in
  (Rabs (det m + 1) < 1 / 100 ->
     r sp = negate_row1 m /\ Rabs (det (r sp) - 1) < 1 / 100) /\
  (~ Rabs (det m + 1) < 1 / 100 -> r sp = m) /\
  p sp = p0 /\ x0 sp = c /\ id sp = i.
Proof.
  intros sp. subst sp. unfold StablePose_init.
  destruct (Rlt_dec (Rabs (det m + 1)) (1 / 100)) as [Hlt | Hge].
  - rewrite (Rltb_true _ _ Hlt). cbn [r p x0 id].
    repeat split; try reflexivity; try (intros; contradiction).
    rewrite det_negate_row1.
    replace (- det m - 1) with (- (det m + 1)) by ring.
    rewrite Rabs_Ropp. exact Hlt.
  - rewrite (Rltb_false _ _ Hge). cbn [r p x0 id].
    repeat split; try reflexivity; intros; contradiction.
Qed.

(** The reflection [diag(1, 1, -1)] is repaired to [diag(1, -1, -1)]. *)
Lemma stable_pose_row_flip_witness :
  let m := Mat3 (Vec3 1 0 0) (Vec3 0 1 0) (Vec3 0 0 (-1)) in
  r (StablePose_init (1 / 2) m zeros3 (IdInt (-1)))
    = Mat3 (Vec3 1 0 0) (Vec3 (- 0) (- 1) (- 0)) (Vec3 0 0 (-1)) /\
  Rabs (det (r (StablePose_init (1 / 2) m zeros3 (IdInt (-1)))) - 1) < 1 / 100.
Proof.
  intros m.
  apply (proj1 (stable_pose_row_flip (1 / 2) m zeros3 (IdInt (-1)))).
  unfold det, vdot, cross, m. cbn.
  replace (1 * (1 * -1 - 0 * 0) + 0 * (0 * 0 - 0 * -1) + 0 * (0 * 0 - 1 * 0) + 1)
    with 0 by ring.
  rewrite Rabs_R0. lra.
Defined.

(* ================================================================== *)
(** * cart2sph: the azimuth case analysis                              *)
(* ================================================================== *)

(** C8: at [x = 0], [y = 0] none of the eight guards holds and [cart2sph]
    raises [UnboundLocalError] for [az]; at every other [(x, y)] exactly one
    guard holds and [cart2sph] returns a triple. *)
Theorem cart2sph_pole_unbound (x y z : R) :
  (x = 0 -> y = 0 ->
     az_branches_taken x y = [] /\
     cart2sph x y z = Raise (UnboundLocalError "az")) /\
  (x <> 0 \/ y <> 0 ->
     List.length (az_branches_taken x y) = 1%nat /\
     exists az, cart2sph x y z
                = Ok (sqrt (x ^ 2 + y ^ 2 + z ^ 2), az,
                      acos (z / sqrt (x ^ 2 + y ^ 2 + z ^ 2)))).
Proof.
  unfold az_branches_taken, cart2sph, az_cases. split.
  - intros -> ->. decide_cmp. cbn. split; reflexivity.
  - intros Hne.
    destruct (Rtotal_order x 0) as [Hx | [Hx | Hx]];
      destruct (Rtotal_order y 0) as [Hy | [Hy | Hy]];
      try (exfalso; lra);
      decide_cmp; cbn; (split; [reflexivity | eexists; reflexivity]).
Qed.

(** The pole [(0, 0, 1)] and the point [(0, 2, 1)] on the y axis. *)
Lemma cart2sph_pole_unbound_witness :
  cart2sph 0 0 1 = Raise (UnboundLocalError "az") /\
  List.length (az_branches_taken 0 2) = 1%nat.
Proof.
  split.
  - apply (proj1 (cart2sph_pole_unbound 0 0 1)); reflexivity.
  - apply (proj2 (cart2sph_pole_unbound 0 2 1)). right. lra.
Defined.

(* ================================================================== *)
(** * wrapped_images: render modes and the caller's transforms          *)
(* ================================================================== *)

Lemma vadd_mvec_zeros (m : mat3) (t : vec3) : vadd (mvec m zeros3) t = t.
Proof.
  destruct m as [[a b c] [d e f] [g h i]], t as [t1 t2 t3].
  unfold vadd, mvec, vdot, zeros3. cbn. f_equal; ring.
Qed.

Lemma premultiply_composed T ps : forall h,
  snd (premultiply T ps h) = map (fun l => dot (with_from_frame (h l) "stp") T) ps.
Proof.
  induction ps as [| a ps IH]; intros h; [reflexivity |].
  cbn [premultiply].
  destruct (premultiply T ps _) as [h2 out] eqn:E.
  cbn [snd map]. f_equal.
  - unfold store_set. rewrite Nat.eqb_refl. reflexivity.
  - change out with (snd (h2, out)). rewrite <- E, IH.
    apply map_ext. intros l. unfold store_set.
    destruct (Nat.eqb l a) eqn:El; [| reflexivity].
    apply Nat.eqb_eq in El. subst l. reflexivity.
Qed.

Section RenderingFacts.

Variable ndarray : Type.
Variable Mesh3D : Type.
Variable vertices : Mesh3D -> ndarray.
Variable triangles : Mesh3D -> ndarray.
Variable render_mesh :
  list mat34 -> Z -> Z -> ndarray -> ndarray -> bool ->
  list ndarray * list ndarray.
Variable elapsed : string.
Variable first_channel : ndarray -> ndarray.
Variable to_color : Image ndarray -> Image ndarray.

Local Abbreviation wrapped_images' :=
  (wrapped_images ndarray Mesh3D vertices triangles render_mesh elapsed
                  first_channel to_color).

(** The store after [wrapped_images] is the store after lines 321-331. *)
Lemma wrapped_images_store self mesh h poses mode sp :
  fst (fst (wrapped_images' self mesh h poses mode sp))
  = fst (projection_poses h poses sp).
Proof.
  unfold wrapped_images, images.
  destruct (projection_poses h poses sp) as [h1 projected].
  destruct (render_mesh _ _ _ _ _ _) as [bs ds].
  destruct (wrap _ _ _ _ _ _ _); reflexivity.
Qed.

Lemma premultiply_store T ps : forall h l,
  fst (premultiply T ps h) l
  = if in_dec Nat.eq_dec l ps then with_from_frame (h l) "stp" else h l.
Proof.
  induction ps as [| a ps IH]; intros h l.
  - reflexivity.
  - cbn [premultiply].
    destruct (premultiply T ps _) as [h2 out] eqn:E.
    cbn [fst]. change h2 with (fst (h2, out)). rewrite <- E, IH.
    unfold store_set.
    destruct (in_dec Nat.eq_dec l (a :: ps)) as [Hin | Hnin];
      destruct (in_dec Nat.eq_dec l ps) as [Hin' | Hnin'];
      destruct (Nat.eqb l a) eqn:El;
      rewrite ?Nat.eqb_eq, ?Nat.eqb_neq in El; subst;
      try reflexivity.
    + destruct Hin as [-> | Hin]; contradiction.
    + exfalso. apply Hnin. right. exact Hin'.
    + exfalso. apply Hnin. right. exact Hin'.
    + exfalso. apply Hnin. left. reflexivity.
Qed.

Lemma premultiply_length T ps : forall h,
  List.length (snd (premultiply T ps h)) = List.length ps.
Proof.
  induction ps as [| a ps IH]; intros h; [reflexivity |].
  cbn [premultiply]. destruct (premultiply T ps _) as [h2 out] eqn:E.
  cbn. f_equal. change out with (snd (h2, out)). rewrite <- E. apply IH.
Qed.

Lemma projection_poses_length h poses sp :
  List.length (snd (projection_poses h poses sp)) = List.length poses.
Proof.
  destruct sp; cbn [projection_poses].
  - apply premultiply_length.
  - cbn. apply length_map.
Qed.

Lemma wrap_recognized self mode bs ds n :
  recognized mode -> List.length bs = n -> List.length ds = n ->
  exists ims, wrap ndarray first_channel to_color self mode bs ds = Some ims /\
              List.length ims = n.
Proof.
  intros [-> | [-> | ->]] Hb Hd; cbn; eexists; (split; [reflexivity |]);
    rewrite length_map; assumption.
Qed.

Lemma poses_of_rendered (ims : list (Image ndarray)) : forall Ts,
  List.length ims = List.length Ts ->
  map T_camera_obj
      (map (fun '(image, T_obj_camera) => mkObjectRender image (inverse T_obj_camera))
           (combine ims Ts))
  = map inverse Ts.
Proof.
  induction ims as [| im ims IH]; intros [| T Ts] Hlen; try discriminate Hlen.
  - reflexivity.
  - cbn. f_equal. apply IH. now injection Hlen.
Qed.

(** C7: with a render mode other than SEGMASK, DEPTH and SCALED_DEPTH the
    call logs its warning last and returns [None]; it returns, i.e. the
    outcome is a value and not an exception. *)
Theorem unsupported_mode_returns_None self mesh h poses mode sp :
  ~ recognized mode ->
  exists h' log,
    wrapped_images' self mesh h poses mode sp
    = (h',
       log ++ [LogWarning ("Render mode " ++ render_mode_repr mode
                           ++ " not supported. Returning None")%string],
       None).
Proof.
  intros Hmode. unfold wrapped_images, images.
  destruct (projection_poses h poses sp) as [h1 projected].
  destruct (render_mesh _ _ _ _ _ _) as [bs ds].
  destruct mode; try (exfalso; apply Hmode; unfold recognized; tauto).
  cbn [wrap]. eauto.
Qed.

(** C10: with a stable pose, every transform of the caller's list has its
    [from_frame] set to ["stp"] in the caller's store (its rotation,
    translation and [to_frame] stay, and no other object changes); without a
    stable pose the store is left as it was. *)
Theorem stable_pose_relabels_inputs self mesh h poses mode :
  (forall sp l, In l poses ->
     let T := fst (fst (wrapped_images ndarray Mesh3D vertices triangles
                          render_mesh elapsed first_channel to_color
                          self mesh h poses mode (Some sp))) l in
     from_frame T = "stp"%string /\
     rotation T = rotation (h l) /\
     translation T = translation (h l) /\
     to_frame T = to_frame (h l)) /\
  (forall sp l, ~ In l poses ->
     fst (fst (wrapped_images ndarray Mesh3D vertices triangles
                 render_mesh elapsed first_channel to_color
                 self mesh h poses mode (Some sp))) l = h l) /\
  fst (fst (wrapped_images ndarray Mesh3D vertices triangles
              render_mesh elapsed first_channel to_color
              self mesh h poses mode None)) = h.
Proof.
  split; [| split].
  - intros sp l Hin T. subst T. rewrite wrapped_images_store.
    cbn [projection_poses]. rewrite premultiply_store.
    destruct (in_dec Nat.eq_dec l poses); [| contradiction].
    repeat split; reflexivity.
  - intros sp l Hnin. rewrite wrapped_images_store.
    cbn [projection_poses]. rewrite premultiply_store.
    destruct (in_dec Nat.eq_dec l poses); [contradiction | reflexivity].
  - rewrite wrapped_images_store. reflexivity.
Qed.

(** C1 (as amended): with a recognised render mode the call returns the
    wrapped images zipped in order with inverted transforms.  Without a
    stable pose the projection matrices [K . [R | t]] are built from the input
    transforms and the i-th result carries the inverse of the i-th of them.
    With a stable pose the projection matrices are built from the composed
    transforms (rotation [R_i . r], translation [t_i], from the object
    frame), yet the i-th result carries the inverse of the i-th input
    transform with its [from_frame] set to ["stp"], not the inverse of the
    composed transform. *)
Theorem wrapped_images_pairs_inverse self mesh h poses mode :
  recognized mode ->
  let K := proj_matrix (_camera_intr self) in
  let wrapped_renders (used : list RigidTransform) : list (Image ndarray) :=
    let rendered :=
      render_mesh
        (map (fun T => (mmul K (rotation T), mvec K (translation T))) used)
        (height (_camera_intr self)) (width (_camera_intr self))
        (vertices mesh) (triangles mesh) false in
    match mode with
    | SEGMASK =>
        map (fun b => BinaryImage (first_channel b) (frame (_camera_intr self)))
            (fst rendered)
    | DEPTH =>
        map (fun d => DepthImage d (frame (_camera_intr self))) (snd rendered)
    | SCALED_DEPTH =>
        map (fun d => to_color (DepthImage d "camera")) (snd rendered)
    | OtherMode _ => []
    end in
  let paired (ims : list (Image ndarray)) (kept : list RigidTransform) :=
    map (fun '(im, T) => mkObjectRender im (inverse T)) (combine ims kept) in
  snd (wrapped_images ndarray Mesh3D vertices triangles render_mesh elapsed
         first_channel to_color self mesh h poses mode None)
  = Some (paired (wrapped_renders (map h poses)) (map h poses)) /\
  (forall sp,
     let composed :=
       map (fun l => mkRigidTransform (mmul (rotation (h l)) (r sp))
                                      (translation (h l)) "obj" (to_frame (h l)))
           poses in
     let relabelled :=
       map (fun l => mkRigidTransform (rotation (h l)) (translation (h l))
                                      "stp" (to_frame (h l)))
           poses in
     snd (wrapped_images ndarray Mesh3D vertices triangles render_mesh elapsed
            first_channel to_color self mesh h poses mode (Some sp))
     = Some (paired (wrapped_renders composed) relabelled)).
Proof.
  intros Hmode K wrapped_renders paired. split.
  - subst K wrapped_renders paired. unfold wrapped_images, images.
    cbn [projection_poses]. cbv beta zeta.
    destruct (render_mesh _ _ _ _ _ _) as [bs ds].
    destruct Hmode as [-> | [-> | ->]]; reflexivity.
  - intros sp composed relabelled.
    assert (Hc : snd (projection_poses h poses (Some sp)) = composed).
    { cbn [projection_poses]. rewrite premultiply_composed.
      apply map_ext. intros l. unfold dot, with_from_frame.
      cbn [rotation translation from_frame to_frame].
      rewrite vadd_mvec_zeros. reflexivity. }
    assert (Hr : map (fst (projection_poses h poses (Some sp))) poses = relabelled).
    { apply map_ext_in. intros l Hl. cbn [projection_poses].
      rewrite premultiply_store.
      destruct (in_dec Nat.eq_dec l poses); [reflexivity | contradiction]. }
    subst K wrapped_renders paired. unfold wrapped_images, images.
    destruct (projection_poses h poses (Some sp)) as [h1 projected].
    cbn [fst snd] in Hc, Hr. rewrite Hc. cbv beta zeta.
    destruct (render_mesh _ _ _ _ _ _) as [bs ds].
    destruct Hmode as [-> | [-> | ->]]; cbn [wrap fst snd]; rewrite Hr;
      reflexivity.
Qed.

End RenderingFacts.

(* ================================================================== *)
(** * wrapped_images on the concrete scene                             *)
(* ================================================================== *)

Lemma flat_renderer_contract : renderer_contract unit flat_renderer.
Proof. intros ps h w v t dbg. cbn. rewrite !length_map. split; reflexivity. Qed.

(** C1 (as stated) fails with a stable pose: the scene's single result
    carries the inverse of the relabelled input, whose rotation is the
    identity, while the transform used for projection has the half turn. *)
Lemma wrapped_images_stable_pose_counterexample :
  renderer_contract unit flat_renderer /\
  recognized DEPTH /\
  ~ paired_with_projection_inverse unit unit (fun _ => tt) (fun _ => tt)
      flat_renderer "0.000" (fun a => a) (fun im => im)
      example_camera tt example_store [0%nat] DEPTH (Some example_stable_pose) /\
  (exists result,
     snd (example_wrapped_images example_camera tt example_store [0%nat] DEPTH
            (Some example_stable_pose)) = Some [result] /\
     rotation (T_camera_obj result)
     <> rotation (inverse (mkRigidTransform
                             (mmul (rotation example_pose) half_turn)
                             (translation example_pose) "obj" "camera"))).
Proof.
  split; [exact flat_renderer_contract |].
  split; [right; left; reflexivity |].
  split.
  - intros [rendered [Hret Hpair]].
    cbn in Hret. injection Hret as <-.
    cbn in Hpair.
    assert (Hp : forall T U : RigidTransform,
               [T] = [U] -> vx (row0 (rotation T)) = vx (row0 (rotation U)))
      by (intros T U E; injection E as ->; reflexivity).
    apply Hp in Hpair. cbn in Hpair. unfold vdot in Hpair. cbn in Hpair. lra.
  - eexists. split; [reflexivity |].
    intros E. apply (f_equal (fun m => vx (row0 m))) in E.
    cbn in E. unfold vdot in E. cbn in E. lra.
Qed.

(** A DEPTH render of the scene, without and with the stable pose. *)
Lemma wrapped_images_pairs_inverse_witness :
  snd (example_wrapped_images example_camera tt example_store [0%nat] DEPTH None)
  = Some [mkObjectRender (DepthImage tt "camera") (inverse example_pose)] /\
  snd (example_wrapped_images example_camera tt example_store [0%nat] DEPTH
         (Some example_stable_pose))
  = Some [mkObjectRender (DepthImage tt "camera")
            (inverse (mkRigidTransform identity3 (Vec3 0 0 1) "stp" "camera"))].
Proof.
  assert (Hmode : recognized DEPTH) by (right; left; reflexivity).
  pose proof (wrapped_images_pairs_inverse unit unit (fun _ => tt) (fun _ => tt)
                flat_renderer "0.000" (fun a => a) (fun im => im)
                example_camera tt example_store [0%nat] DEPTH Hmode)
    as [Hnone Hsome].
  split.
  - exact Hnone.
  - exact (Hsome example_stable_pose).
Defined.

(** The mode a caller would pass for colour images is not wrapped. *)
Lemma unsupported_mode_returns_None_witness :
  exists h' log,
    example_wrapped_images example_camera tt example_store [0%nat]
                           (OtherMode "color") None
    = (h',
       log ++ [LogWarning "Render mode color not supported. Returning None"],
       None).
Proof.
  apply (unsupported_mode_returns_None unit unit (fun _ => tt) (fun _ => tt)
           flat_renderer "0.000" (fun a => a) (fun im => im)
           example_camera tt example_store [0%nat] (OtherMode "color") None).
  intros [H | [H | H]]; discriminate H.
Defined.

(** The scene's transform at reference 0 is relabelled; the one at 1 is not. *)
Lemma stable_pose_relabels_inputs_witness :
  from_frame
    (fst (fst (example_wrapped_images example_camera tt example_store [0%nat] DEPTH
                 (Some example_stable_pose))) 0%nat) = "stp"%string /\
  fst (fst (example_wrapped_images example_camera tt example_store [0%nat] DEPTH
              (Some example_stable_pose))) 1%nat
    = example_pose.
Proof.
  pose proof (stable_pose_relabels_inputs unit unit (fun _ => tt) (fun _ => tt)
                flat_renderer "0.000" (fun a => a) (fun im => im)
                example_camera tt example_store [0%nat] DEPTH) as [Hin [Hout _]].
  split.
  - apply (Hin example_stable_pose 0%nat). left. reflexivity.
  - apply (Hout example_stable_pose 1%nat). intros [H | []]. discriminate H.
Defined.

(* ================================================================== *)
(** * Spherical coordinates: the round trip                            *)
(* ================================================================== *)

Lemma sph2cart_sq (r az elev : R) :
  (r * cos az * sin elev) ^ 2 + (r * sin az * sin elev) ^ 2 + (r * cos elev) ^ 2
  = r ^ 2.
Proof.
  pose proof (sin2_cos2 az) as Ha. pose proof (sin2_cos2 elev) as He.
  unfold Rsqr in Ha, He.
  replace ((r * cos az * sin elev) ^ 2 + (r * sin az * sin elev) ^ 2
           + (r * cos elev) ^ 2)
    with (r ^ 2 * ((sin az * sin az + cos az * cos az) * (sin elev * sin elev)
                   + cos elev * cos elev)) by ring.
  rewrite Ha, Rmult_1_l, He. ring.
Qed.

(** [atan] undoes the ratio of a sine and a cosine scaled alike. *)
Lemma atan_scaled_ratio (k b : R) :
  k <> 0 -> 0 < b < PI / 2 -> atan ((k * sin b) / (k * cos b)) = b.
Proof.
  intros Hk Hb.
  assert (Hc : 0 < cos b) by (apply cos_gt_0; lra).
  replace ((k * sin b) / (k * cos b)) with (tan b)
    by (unfold tan; field; split; lra).
  apply atan_tan. lra.
Qed.

(** The four open quadrants of the azimuth, by their base angle. *)
Lemma az_quadrant (az : R) :
  0 < az < 2 * PI -> az <> PI / 2 -> az <> PI -> az <> 3 * PI / 2 ->
  exists b, 0 < b < PI / 2 /\
    (az = b \/ az = PI - b \/ az = PI + b \/ az = 2 * PI - b).
Proof.
  intros Haz H1 H2 H3.
  destruct (Rlt_dec az (PI / 2)) as [L1 | G1].
  - exists az. split; [lra | tauto].
  - destruct (Rlt_dec az PI) as [L2 | G2].
    + exists (PI - az). split; [lra |]. right; left. ring.
    + destruct (Rlt_dec az (3 * PI / 2)) as [L3 | G3].
      * exists (az - PI). split; [lra |]. right; right; left. ring.
      * exists (2 * PI - az). split; [lra |]. right; right; right. ring.
Qed.

Lemma az_recovered (r az elev : R) :
  0 < r -> 0 < elev < PI ->
  0 < az < 2 * PI -> az <> PI / 2 -> az <> PI -> az <> 3 * PI / 2 ->
  az_branches_taken (r * cos az * sin elev) (r * sin az * sin elev) = [(true, az)].
Proof.
  intros Hr Hel Haz H1 H2 H3.
  assert (Hs : 0 < sin elev) by (apply sin_gt_0; lra).
  assert (Hk : 0 < r * sin elev) by (apply Rmult_lt_0_compat; assumption).
  destruct (az_quadrant az Haz H1 H2 H3) as [b [Hb Hq]].
  assert (Hsb : 0 < sin b) by (apply sin_gt_0; lra).
  assert (Hcb : 0 < cos b) by (apply cos_gt_0; lra).
  assert (Hxs : 0 < r * sin elev * cos b) by (apply Rmult_lt_0_compat; assumption).
  assert (Hys : 0 < r * sin elev * sin b) by (apply Rmult_lt_0_compat; assumption).
  pose proof (atan_scaled_ratio (r * sin elev) b ltac:(lra) Hb) as Hat.
  unfold az_branches_taken, az_cases.
  destruct Hq as [-> | [-> | [-> | ->]]].
  - replace (r * cos b * sin elev) with (r * sin elev * cos b) by ring.
    replace (r * sin b * sin elev) with (r * sin elev * sin b) by ring.
    decide_cmp. cbn. rewrite Hat. reflexivity.
  - rewrite sin_minus, cos_minus, sin_PI, cos_PI.
    replace (r * (-1 * cos b + 0 * sin b) * sin elev)
      with (- (r * sin elev * cos b)) by ring.
    replace (r * (0 * cos b - -1 * sin b) * sin elev)
      with (r * sin elev * sin b) by ring.
    decide_cmp. cbn.
    replace (- (r * sin elev * sin b) / - (r * sin elev * cos b))
      with (r * sin elev * sin b / (r * sin elev * cos b)) by (field; lra).
    rewrite Hat. reflexivity.
  - rewrite sin_plus, cos_plus, sin_PI, cos_PI.
    replace (r * (-1 * cos b - 0 * sin b) * sin elev)
      with (- (r * sin elev * cos b)) by ring.
    replace (r * (0 * cos b + -1 * sin b) * sin elev)
      with (- (r * sin elev * sin b)) by ring.
    decide_cmp. cbn.
    replace (- (r * sin elev * sin b) / - (r * sin elev * cos b))
      with (r * sin elev * sin b / (r * sin elev * cos b)) by (field; lra).
    rewrite Hat. reflexivity.
  - rewrite sin_minus, cos_minus, sin_2PI, cos_2PI.
    replace (r * (1 * cos b + 0 * sin b) * sin elev)
      with (r * sin elev * cos b) by ring.
    replace (r * (0 * cos b - 1 * sin b) * sin elev)
      with (- (r * sin elev * sin b)) by ring.
    decide_cmp. cbn.
    replace (- - (r * sin elev * sin b) / (r * sin elev * cos b))
      with (r * sin elev * sin b / (r * sin elev * cos b)) by (field; lra).
    rewrite Hat. reflexivity.
Qed.

(** C5: for [r > 0], [elev] in [(0, pi)] and [az] in [(0, 2 pi)] off the
    axes, [cart2sph] applied to [sph2cart r az elev] returns exactly
    [(r, az, elev)], and the one guard of the case analysis that holds is the
    one whose value is [az]. *)
Theorem cart2sph_sph2cart (r az elev : R) :
  0 < r -> 0 < elev < PI ->
  0 < az < 2 * PI -> az <> PI / 2 -> az <> PI -> az <> 3 * PI / 2 ->
  let '(x, y, z) := sph2cart r az elev in
  cart2sph x y z = Ok (r, az, elev) /\
  az_branches_taken x y = [(true, az)].
Proof.
  intros Hr Hel Haz H1 H2 H3. unfold sph2cart.
  pose proof (az_recovered r az elev Hr Hel Haz H1 H2 H3) as Hbr.
  split; [| exact Hbr].
  unfold cart2sph. rewrite sph2cart_sq, sqrt_pow2 by lra.
  assert (Hft : first_true
                  (az_cases (r * cos az * sin elev) (r * sin az * sin elev))
                = Some az).
  { unfold az_branches_taken in Hbr.
    generalize dependent (az_cases (r * cos az * sin elev) (r * sin az * sin elev)).
    induction l as [| [[|] v] l IH]; cbn; intros Hf.
    - discriminate Hf.
    - injection Hf as -> _. reflexivity.
    - apply IH, Hf. }
  rewrite Hft.
  replace (r * cos elev / r) with (cos elev) by (field; lra).
  rewrite acos_cos by lra. reflexivity.
Qed.

(** Off the axes at 45 degrees of azimuth, on the equator. *)
Lemma cart2sph_sph2cart_witness :
  let '(x, y, z) := sph2cart 1 (PI / 4) (PI / 2) in
  cart2sph x y z = Ok (1, PI / 4, PI / 2) /\
  az_branches_taken x y = [(true, PI / 4)].
Proof.
  pose proof PI_RGT_0 as Hpi.
  apply (cart2sph_sph2cart 1 (PI / 4) (PI / 2)); lra.
Defined.

(* ================================================================== *)
(** * The loops of object_to_camera_poses                              *)
(* ================================================================== *)

Lemma samples_length (start inc : R) (n : nat) :
  List.length (samples start inc n) = n.
Proof. revert start. induction n; intros start; cbn; [reflexivity | now rewrite IHn]. Qed.

Lemma In_samples (n : nat) : forall start inc x,
  In x (samples start inc n) ->
  exists k, (k < n)%nat /\ x = start + INR k * inc.
Proof.
  induction n as [| n IH]; intros start inc x Hin; [contradiction |].
  destruct Hin as [<- | Hin].
  - exists 0%nat. split; [lia |]. cbn. ring.
  - destruct (IH _ _ _ Hin) as [k [Hk ->]].
    exists (S k). split; [lia |]. rewrite S_INR. ring.
Qed.

(** A loop whose variable advances by [inc] and whose body appends [F x]
    runs once per sample: [n] times when the guard holds at the first [n]
    samples and fails at the next. *)
Lemma while_samples {A : Type} (cond : R -> bool) (inc : R) (F : R -> list A)
    (body : R * list A -> result (R * list A)) :
  (forall x acc, body (x, acc) = Ok (x + inc, acc ++ F x)) ->
  forall n fuel start acc,
    (forall k, (k < n)%nat -> cond (start + INR k * inc) = true) ->
    cond (start + INR n * inc) = false ->
    (n < fuel)%nat ->
    exists xf,
      while fuel (fun '(x, _) => cond x) body (start, acc)
      = Ok (xf, acc ++ flat_map F (samples start inc n)).
Proof.
  intros Hbody. induction n as [| n IH]; intros fuel start acc Htrue Hfalse Hfuel;
    (destruct fuel as [| fuel]; [lia |]); cbn [while samples flat_map].
  - replace (start + INR 0 * inc) with start in Hfalse by (cbn; ring).
    rewrite Hfalse, app_nil_r. eexists. reflexivity.
  - assert (H0 : cond start = true).
    { specialize (Htrue 0%nat ltac:(lia)).
      replace (start + INR 0 * inc) with start in Htrue by (cbn; ring). exact Htrue. }
    rewrite H0, Hbody. cbn [bind].
    destruct (IH fuel (start + inc) (acc ++ F start)) as [xf E].
    + intros k Hk. specialize (Htrue (S k) ltac:(lia)).
      rewrite S_INR in Htrue.
      replace (start + inc + INR k * inc) with (start + (INR k + 1) * inc) by ring.
      exact Htrue.
    + rewrite S_INR in Hfalse.
      replace (start + inc + INR n * inc) with (start + (INR n + 1) * inc) by ring.
      exact Hfalse.
    + lia.
    + exists xf. rewrite E, <- app_assoc. reflexivity.
Qed.

Lemma INR_to_nat (num : Z) : (0 <= num)%Z -> INR (Z.to_nat num) = IZR num.
Proof. intros H. rewrite INR_IZR_INZ, Z2Nat.id by exact H. reflexivity. Qed.

(** The guard [x <= hi] of an inclusive axis holds at exactly the first
    [inclusive_count] samples. *)
Lemma inclusive_guard (lo hi : R) (num : Z) :
  (1 <= num)%Z ->
  (forall k, (k < inclusive_count lo hi num)%nat ->
     Rleb (lo + INR k * inclusive_step lo hi num) hi = true) /\
  Rleb (lo + INR (inclusive_count lo hi num) * inclusive_step lo hi num) hi = false.
Proof.
  intros Hnum. unfold inclusive_count, inclusive_step.
  destruct (Rtotal_order hi lo) as [Hlt | [Heq | Hgt]].
  - rewrite (Rltb_true _ _ Hlt). split; [intros k Hk; lia |].
    apply Rleb_false. cbn. lra.
  - rewrite (Rltb_false hi lo), (Reqb_true _ _ Heq) by lra. split.
    + intros k Hk. replace k with 0%nat by lia. apply Rleb_true. cbn. lra.
    + apply Rleb_false. cbn. lra.
  - rewrite (Rltb_false hi lo), (Reqb_false hi lo) by lra.
    destruct (num =? 1)%Z eqn:E1; rewrite ?Z.eqb_eq, ?Z.eqb_neq in E1.
    + subst num. change (Z.to_nat 1) with 1%nat. split.
      * intros k Hk. replace k with 0%nat by lia. apply Rleb_true. cbn. lra.
      * apply Rleb_false. cbn. lra.
    + assert (HN : 2 <= IZR num) by (apply (IZR_le 2); lia).
      rewrite minus_IZR, INR_to_nat by lia.
      set (d := (hi - lo) / (IZR num - 1)).
      assert (Hd : d * (IZR num - 1) = hi - lo) by (unfold d; field; lra).
      assert (Hdpos : 0 < d) by (unfold d; apply Rdiv_lt_0_compat; lra).
      split.
      * intros k Hk. apply Rleb_true.
        assert (Hk' : INR k + 1 <= IZR num).
        { rewrite <- S_INR, <- (INR_to_nat num) by lia. apply le_INR. lia. }
        nra.
      * apply Rleb_false. nra.
Qed.

(** The guard [x < hi] of a half-open axis holds at exactly the first
    [half_open_count] samples. *)
Lemma half_open_guard (lo hi : R) (num : Z) :
  (1 <= num)%Z ->
  (forall k, (k < half_open_count lo hi num)%nat ->
     Rltb (lo + INR k * half_open_step lo hi num) hi = true) /\
  Rltb (lo + INR (half_open_count lo hi num) * half_open_step lo hi num) hi = false.
Proof.
  intros Hnum. unfold half_open_count, half_open_step.
  destruct (Rlt_dec lo hi) as [Hlt | Hge].
  - rewrite (Rltb_true _ _ Hlt).
    assert (HN : 1 <= IZR num) by (apply (IZR_le 1); lia).
    rewrite INR_to_nat by lia.
    set (d := (hi - lo) / IZR num).
    assert (Hd : d * IZR num = hi - lo) by (unfold d; field; lra).
    assert (Hdpos : 0 < d) by (unfold d; apply Rdiv_lt_0_compat; lra).
    split.
    + intros k Hk. apply Rltb_true.
      assert (Hk' : INR k + 1 <= IZR num).
      { rewrite <- S_INR, <- (INR_to_nat num) by lia. apply le_INR. lia. }
      nra.
    + apply Rltb_false. nra.
  - rewrite (Rltb_false _ _ Hge). split; [intros k Hk; lia |].
    apply Rltb_false. cbn. lra.
Qed.

Lemma inclusive_inc_ok (lo hi : R) (num : Z) :
  (1 <= num)%Z ->
  (if Reqb hi lo then Ok 1
   else if (num =? 1)%Z then Ok (hi - lo + 1)
        else py_div (hi - lo) (num - 1))
  = Ok (inclusive_step lo hi num).
Proof.
  intros Hnum. unfold inclusive_step, py_div.
  destruct (Reqb hi lo); [reflexivity |].
  destruct (num =? 1)%Z eqn:E1; [reflexivity |].
  apply Z.eqb_neq in E1.
  replace (num - 1 =? 0)%Z with false by (symmetry; apply Z.eqb_neq; lia).
  reflexivity.
Qed.

Lemma half_open_inc_ok (lo hi : R) (num : Z) :
  (1 <= num)%Z -> py_div (hi - lo) num = Ok (half_open_step lo hi num).
Proof.
  intros Hnum. unfold half_open_step, py_div.
  replace (num =? 0)%Z with false by (symmetry; apply Z.eqb_neq; lia).
  reflexivity.
Qed.

Lemma flat_map_singleton {A B : Type} (f : A -> B) (l : list A) :
  flat_map (fun x => [f x]) l = map f l.
Proof. induction l as [| a l IH]; cbn; [reflexivity | now rewrite IH]. Qed.

(** With every count at least one, the four loops terminate and build the
    grid of the realised samples, as soon as the fuel exceeds each count. *)
Lemma object_to_camera_poses_grid (self : ViewsphereDiscretizer) (fuel : nat) :
  (1 <= num_radii self)%Z -> (1 <= num_elev self)%Z ->
  (1 <= num_az self)%Z -> (1 <= num_roll self)%Z ->
  let n_radius := inclusive_count (min_radius self) (max_radius self) (num_radii self) in
  let n_elev := inclusive_count (min_elev self) (max_elev self) (num_elev self) in
  let n_az := half_open_count (min_az self) (max_az self) (num_az self) in
  let n_roll := half_open_count (min_roll self) (max_roll self) (num_roll self) in
  (n_radius < fuel)%nat -> (n_elev < fuel)%nat ->
  (n_az < fuel)%nat -> (n_roll < fuel)%nat ->
  object_to_camera_poses fuel self = Ok (grid self n_radius n_elev n_az n_roll).
Proof.
  intros Hnr Hne Hna Hnro n_radius n_elev n_az n_roll Fr Fe Fa Fro.
  unfold object_to_camera_poses.
  rewrite !inclusive_inc_ok, !half_open_inc_ok by assumption. cbn [bind].
  set (radius_inc := inclusive_step (min_radius self) (max_radius self) (num_radii self)).
  set (elev_inc := inclusive_step (min_elev self) (max_elev self) (num_elev self)).
  set (az_inc := half_open_step (min_az self) (max_az self) (num_az self)).
  set (roll_inc := half_open_step (min_roll self) (max_roll self) (num_roll self)).
  destruct (inclusive_guard (min_radius self) (max_radius self) _ Hnr) as [Gr Gr'].
  destruct (inclusive_guard (min_elev self) (max_elev self) _ Hne) as [Ge Ge'].
  destruct (half_open_guard (min_az self) (max_az self) _ Hna) as [Ga Ga'].
  destruct (half_open_guard (min_roll self) (max_roll self) _ Hnro) as [Gro Gro'].
  (* roll loop *)
  assert (Hroll : forall radius az elev acc, exists xf,
    while fuel (fun '(roll, _) => Rltb roll (max_roll self))
      (fun '(roll, poses) =>
         Ok (roll + roll_inc, poses ++ [camera_pose radius az elev roll]))
      (min_roll self, acc)
    = Ok (xf, acc ++ map (fun roll => camera_pose radius az elev roll)
                       (samples (min_roll self) roll_inc n_roll))).
  { intros radius az elev acc. rewrite <- flat_map_singleton.
    apply (while_samples (fun x => Rltb x (max_roll self)) roll_inc
             (fun roll => [camera_pose radius az elev roll]));
      [reflexivity | exact Gro | exact Gro' | exact Fro]. }
  (* azimuth loop *)
  assert (Haz : forall radius elev acc, exists xf,
    while fuel (fun '(az, _) => Rltb az (max_az self))
      (fun '(az, poses) =>
         '(_, poses) <-
           while fuel (fun '(roll, _) => Rltb roll (max_roll self))
             (fun '(roll, poses) =>
                Ok (roll + roll_inc, poses ++ [camera_pose radius az elev roll]))
             (min_roll self, poses) ;;
         Ok (az + az_inc, poses))
      (min_az self, acc)
    = Ok (xf, acc ++ flat_map (fun az =>
                        map (fun roll => camera_pose radius az elev roll)
                            (samples (min_roll self) roll_inc n_roll))
                      (samples (min_az self) az_inc n_az))).
  { intros radius elev acc.
    apply (while_samples (fun x => Rltb x (max_az self)) az_inc
             (fun az => map (fun roll => camera_pose radius az elev roll)
                            (samples (min_roll self) roll_inc n_roll)));
      [| exact Ga | exact Ga' | exact Fa].
    intros x acc'. destruct (Hroll radius x elev acc') as [xf E].
    rewrite E. reflexivity. }
  (* elevation loop *)
  assert (Helev : forall radius acc, exists xf,
    while fuel (fun '(elev, _) => Rleb elev (max_elev self))
      (fun '(elev, poses) =>
         '(_, poses) <-
           while fuel (fun '(az, _) => Rltb az (max_az self))
             (fun '(az, poses) =>
                '(_, poses) <-
                  while fuel (fun '(roll, _) => Rltb roll (max_roll self))
                    (fun '(roll, poses) =>
                       Ok (roll + roll_inc,
                           poses ++ [camera_pose radius az elev roll]))
                    (min_roll self, poses) ;;
                Ok (az + az_inc, poses))
             (min_az self, poses) ;;
         Ok (elev + elev_inc, poses))
      (min_elev self, acc)
    = Ok (xf, acc ++ flat_map (fun elev =>
                        flat_map (fun az =>
                          map (fun roll => camera_pose radius az elev roll)
                              (samples (min_roll self) roll_inc n_roll))
                        (samples (min_az self) az_inc n_az))
                      (samples (min_elev self) elev_inc n_elev))).
  { intros radius acc.
    apply (while_samples (fun x => Rleb x (max_elev self)) elev_inc
             (fun elev =>
                flat_map (fun az =>
                  map (fun roll => camera_pose radius az elev roll)
                      (samples (min_roll self) roll_inc n_roll))
                (samples (min_az self) az_inc n_az)));
      [| exact Ge | exact Ge' | exact Fe].
    intros x acc'. destruct (Haz radius x acc') as [xf E].
    rewrite E. reflexivity. }
  (* radius loop *)
  match goal with
  | |- bind (while fuel ?c ?b ?s) _ = _ =>
      assert (Hradius : exists xf,
                while fuel c b s = Ok (xf, [] ++ grid self n_radius n_elev n_az n_roll))
  end.
  { unfold grid. fold radius_inc elev_inc az_inc roll_inc.
    apply (while_samples (fun x => Rleb x (max_radius self)) radius_inc
             (fun radius =>
                flat_map (fun elev =>
                  flat_map (fun az =>
                    map (fun roll => camera_pose radius az elev roll)
                        (samples (min_roll self) roll_inc n_roll))
                  (samples (min_az self) az_inc n_az))
                (samples (min_elev self) elev_inc n_elev)));
      [| exact Gr | exact Gr' | exact Fr].
    intros x acc'. destruct (Helev x acc') as [xf E].
    rewrite E. reflexivity. }
  destruct Hradius as [xf E]. rewrite E. reflexivity.
Qed.

Lemma flat_map_length_const {A B : Type} (f : A -> list B) (c : nat) (l : list A) :
  (forall x, List.length (f x) = c) ->
  List.length (flat_map f l) = (List.length l * c)%nat.
Proof.
  intros Hf. induction l as [| a l IH]; cbn; [reflexivity |].
  rewrite length_app, Hf, IH. reflexivity.
Qed.

Lemma grid_length (self : ViewsphereDiscretizer) (n_radius n_elev n_az n_roll : nat) :
  List.length (grid self n_radius n_elev n_az n_roll)
  = (n_radius * n_elev * n_az * n_roll)%nat.
Proof.
  unfold grid.
  rewrite (flat_map_length_const _ (n_elev * n_az * n_roll)), samples_length; [lia |].
  intros radius.
  rewrite (flat_map_length_const _ (n_az * n_roll)), samples_length; [lia |].
  intros elev.
  rewrite (flat_map_length_const _ n_roll), samples_length; [lia |].
  intros az. rewrite length_map, samples_length. reflexivity.
Qed.

(** C2 (as amended): for every valid configuration the call returns, given
    enough fuel, the grid with radius outermost, then elevation, then azimuth,
    then roll; its length is the product of the per-axis counts: on the radius
    and elevation axes [1] when [min == max] and the configured number
    otherwise; on the azimuth and roll axes the configured number when
    [min < max] and [0] when [min == max], the loops being half-open. *)
Theorem object_to_camera_poses_count (self : ViewsphereDiscretizer) :
  valid self ->
  let n_radius := stated_count (min_radius self) (max_radius self) (num_radii self) in
  let n_elev := stated_count (min_elev self) (max_elev self) (num_elev self) in
  let n_az := half_open_count (min_az self) (max_az self) (num_az self) in
  let n_roll := half_open_count (min_roll self) (max_roll self) (num_roll self) in
  exists fuel0, forall fuel, (fuel0 <= fuel)%nat ->
    exists poses,
      object_to_camera_poses fuel self = Ok poses /\
      poses = grid self n_radius n_elev n_az n_roll /\
      List.length poses = (n_radius * n_elev * n_az * n_roll)%nat.
Proof.
  intros (Hnr & Hne & Hna & Hnro & Hr & He & _ & _) n_radius n_elev n_az n_roll.
  assert (Er : inclusive_count (min_radius self) (max_radius self) (num_radii self)
               = n_radius)
    by (unfold inclusive_count; rewrite Rltb_false by lra; reflexivity).
  assert (Ee : inclusive_count (min_elev self) (max_elev self) (num_elev self)
               = n_elev)
    by (unfold inclusive_count; rewrite Rltb_false by lra; reflexivity).
  exists (S (n_radius + n_elev + n_az + n_roll)).
  intros fuel Hfuel. eexists. split; [| split; [reflexivity |]].
  - rewrite <- Er, <- Ee.
    apply object_to_camera_poses_grid; try assumption;
      rewrite ?Er, ?Ee; fold n_az n_roll; lia.
  - apply grid_length.
Qed.

(** C2 (as stated) fails on an empty azimuth range: [example_discretizer] is
    valid and the stated product is [1], yet the azimuth loop never runs and
    no run returns a list of that length. *)
Lemma object_to_camera_poses_count_counterexample :
  valid example_discretizer /\
  stated_length example_discretizer = 1%nat /\
  (forall fuel, (2 <= fuel)%nat ->
     object_to_camera_poses fuel example_discretizer = Ok []) /\
  ~ (exists fuel poses,
       object_to_camera_poses fuel example_discretizer = Ok poses /\
       List.length poses = stated_length example_discretizer).
Proof.
  assert (Hvalid : valid example_discretizer).
  { unfold valid, example_discretizer; cbn. repeat split; try lia; lra. }
  assert (Hlen : stated_length example_discretizer = 1%nat).
  { unfold stated_length, stated_count, example_discretizer; cbn.
    decide_cmp. reflexivity. }
  assert (Hrun : forall fuel, (2 <= fuel)%nat ->
            object_to_camera_poses fuel example_discretizer = Ok []).
  { intros fuel Hfuel.
    destruct Hvalid as (Hnr & Hne & Hna & Hnro & _).
    rewrite (object_to_camera_poses_grid example_discretizer fuel Hnr Hne Hna Hnro).
    - unfold inclusive_count, half_open_count, example_discretizer; cbn.
      decide_cmp. reflexivity.
    - unfold inclusive_count, example_discretizer; cbn. decide_cmp. lia.
    - unfold inclusive_count, example_discretizer; cbn. decide_cmp. lia.
    - unfold half_open_count, example_discretizer; cbn. decide_cmp. lia.
    - unfold half_open_count, example_discretizer; cbn. decide_cmp.
      change (Z.to_nat 1) with 1%nat. lia. }
  split; [exact Hvalid | split; [exact Hlen | split; [exact Hrun |]]].
  intros [fuel [poses [Hok Hl]]]. rewrite Hlen in Hl.
  destruct fuel as [| [| fuel]].
  - unfold object_to_camera_poses, example_discretizer, py_div in Hok.
    cbn in Hok. revert Hok. decide_cmp. cbn. discriminate.
  - unfold object_to_camera_poses, example_discretizer, py_div in Hok.
    cbn in Hok. revert Hok. decide_cmp. cbn. decide_cmp. cbn. discriminate.
  - rewrite Hrun in Hok by lia. injection Hok as <-. discriminate Hl.
Qed.

(* ================================================================== *)
(** * The generated rotations                                          *)
(* ================================================================== *)

Lemma norm_mul (v : vec3) : norm v * norm v = vdot v v.
Proof.
  unfold norm. rewrite sqrt_sqrt; [unfold vdot; ring |].
  nra.
Qed.

Lemma norm_of_unit (v : vec3) : unit_vec v -> norm v = 1.
Proof.
  intros H. unfold norm.
  replace (vx v ^ 2 + vy v ^ 2 + vz v ^ 2) with (vdot v v) by (unfold vdot; ring).
  rewrite H. apply sqrt_1.
Qed.

Lemma vdiv_one (v : vec3) : vdiv v 1 = v.
Proof. destruct v. unfold vdiv. cbn. f_equal; field. Qed.

Lemma unit_vdiv (v : vec3) : norm v <> 0 -> unit_vec (vdiv v (norm v)).
Proof.
  intros Hn. pose proof (norm_mul v) as Hnn.
  unfold unit_vec, vdiv, vdot in *. cbn.
  replace (vx v / norm v * (vx v / norm v) + vy v / norm v * (vy v / norm v)
           + vz v / norm v * (vz v / norm v))
    with ((vx v * vx v + vy v * vy v + vz v * vz v) / (norm v * norm v))
    by (field; exact Hn).
  rewrite Hnn. field.
  rewrite <- Hnn. apply Rmult_integral_contrapositive_currified; exact Hn.
Qed.

Lemma unit_vneg (v : vec3) : unit_vec v -> unit_vec (vneg v).
Proof. unfold unit_vec, vneg, vdot. cbn. intros H. rewrite <- H. ring. Qed.

Lemma cross_unit (x z : vec3) :
  unit_vec x -> unit_vec z -> vdot x z = 0 -> unit_vec (cross z x).
Proof.
  destruct x as [x1 x2 x3], z as [z1 z2 z3]. unfold unit_vec, vdot, cross. cbn.
  intros Hx Hz Hxz. nsatz.
Qed.

Lemma frame_proper (x z : vec3) :
  unit_vec x -> unit_vec z -> vdot x z = 0 ->
  proper_rotation (c_ x (vdiv (cross z x) (norm (cross z x))) z).
Proof.
  intros Hx Hz Hxz.
  rewrite (norm_of_unit _ (cross_unit x z Hx Hz Hxz)), vdiv_one.
  destruct x as [x1 x2 x3], z as [z1 z2 z3].
  unfold proper_rotation, unit_vec, orthonormal, det, vdot, cross, c_, mmul, transpose,
    col0, col1, col2, identity3, vdot in *; cbn in *.
  split; [repeat f_equal |]; nsatz.
Qed.

Lemma proper_mmul (a b : mat3) :
  proper_rotation a -> proper_rotation b -> proper_rotation (mmul a b).
Proof.
  destruct a as [[a1 a2 a3] [a4 a5 a6] [a7 a8 a9]].
  destruct b as [[b1 b2 b3] [b4 b5 b6] [b7 b8 b9]].
  unfold proper_rotation, orthonormal, det, vdot, cross, mmul, transpose,
    col0, col1, col2, identity3, vdot; cbn.
  intros [Ha Hda] [Hb Hdb].
  injection Ha as A1 A2 A3 A4 A5 A6 A7 A8 A9.
  injection Hb as B1 B2 B3 B4 B5 B6 B7 B8 B9.
  split; [repeat f_equal |]; nsatz.
Qed.

Lemma proper_transpose (m : mat3) :
  proper_rotation m -> proper_rotation (transpose m).
Proof.
  destruct m as [[a b c] [d e f] [g h i]].
  unfold proper_rotation, orthonormal, det, vdot, cross, mmul, transpose,
    col0, col1, col2, identity3, vdot; cbn.
  intros [Ho Hd]. injection Ho as H1 H2 H3 H4 H5 H6 H7 H8 H9.
  split; [repeat f_equal |]; nsatz.
Qed.

Lemma roll_proper (roll : R) :
  proper_rotation (Mat3 (Vec3 (cos roll) (- sin roll) 0)
                        (Vec3 (sin roll) (cos roll) 0)
                        (Vec3 0 0 1)).
Proof.
  pose proof (sin2_cos2 roll) as H. unfold Rsqr in H.
  unfold proper_rotation, orthonormal, det, vdot, cross, mmul, transpose,
    col0, col1, col2, identity3, vdot; cbn.
  split; [repeat f_equal |]; nsatz.
Qed.

Lemma camera_center_norm (radius az elev : R) :
  radius <> 0 ->
  norm (Vec3 (radius * cos az * sin elev) (radius * sin az * sin elev)
             (radius * cos elev)) <> 0.
Proof.
  intros Hr Hn. unfold norm in Hn. cbn [vx vy vz] in Hn.
  rewrite sph2cart_sq in Hn. apply sqrt_eq_0 in Hn; nra.
Qed.

Lemma camera_z_unit (c : vec3) :
  norm c <> 0 -> unit_vec (vdiv (vneg c) (norm c)).
Proof.
  intros Hn. pose proof (unit_vdiv c Hn) as H.
  unfold unit_vec, vdiv, vneg, vdot in *. cbn in *. rewrite <- H. field. exact Hn.
Qed.

(** The canonical x axis is a unit vector perpendicular to the viewing axis,
    also at the poles, where it falls back to the world x axis. *)
Lemma camera_x_par (z : vec3) :
  let xp := Vec3 (vy z) (- vx z) 0 in
  let x := if Reqb (norm xp) 0 then Vec3 1 0 0 else xp in
  unit_vec (vdiv x (norm x)) /\ vdot (vdiv x (norm x)) z = 0.
Proof.
  intros xp x. subst x. destruct (Req_dec_T (norm xp) 0) as [E | E].
  - rewrite (Reqb_true _ _ E).
    assert (Hu : unit_vec (Vec3 1 0 0)) by (unfold unit_vec, vdot; cbn; ring).
    rewrite (norm_of_unit _ Hu), vdiv_one. split; [exact Hu |].
    pose proof (norm_mul xp) as Hn. rewrite E in Hn.
    unfold xp, vdot in *. cbn in *. nra.
  - rewrite (Reqb_false _ _ E). split; [apply unit_vdiv; exact E |].
    unfold vdot, vdiv, xp in *. cbn in *. field. exact E.
Qed.

Lemma camera_pose_proper (radius az elev roll : R) :
  radius <> 0 ->
  proper_rotation (rotation (camera_pose radius az elev roll)).
Proof.
  intros Hr. unfold camera_pose, sph2cart. cbv beta iota zeta.
  set (c := Vec3 (radius * cos az * sin elev) (radius * sin az * sin elev)
                 (radius * cos elev)).
  pose proof (camera_z_unit c (camera_center_norm radius az elev Hr)) as Hz.
  set (z := vdiv (vneg c) (norm c)) in *.
  destruct (camera_x_par z) as [Hx Hxz]. cbv zeta in Hx, Hxz.
  set (x := vdiv (if Reqb (norm (Vec3 (vy z) (- vx z) 0)) 0
                  then Vec3 1 0 0 else Vec3 (vy z) (- vx z) 0) _) in *.
  destruct (Rgtb (vz (vdiv (cross z x) (norm (cross z x)))) 0);
    cbn [rotation inverse];
    apply proper_transpose, proper_mmul; try apply roll_proper;
    apply frame_proper; try assumption.
  - apply unit_vneg, Hx.
  - replace (vdot (vneg x) z) with (- vdot x z)
      by (unfold vdot, vneg; cbn [vx vy vz]; ring).
    rewrite Hxz. ring.
Qed.

Lemma In_grid (self : ViewsphereDiscretizer) (n_radius n_elev n_az n_roll : nat)
    (T : RigidTransform) :
  In T (grid self n_radius n_elev n_az n_roll) ->
  exists radius az elev roll,
    In radius (samples (min_radius self)
                 (inclusive_step (min_radius self) (max_radius self) (num_radii self))
                 n_radius) /\
    T = camera_pose radius az elev roll.
Proof.
  unfold grid. intros H.
  apply in_flat_map in H. destruct H as [radius [Hr H]].
  apply in_flat_map in H. destruct H as [elev [_ H]].
  apply in_flat_map in H. destruct H as [az [_ H]].
  apply in_map_iff in H. destruct H as [roll [<- _]].
  exists radius, az, elev, roll. split; [exact Hr | reflexivity].
Qed.

(** C3: with every count at least one and no radius sample equal to zero,
    the call returns (given enough fuel) and the rotation of every returned
    transform is orthonormal with determinant [+1]; the elevation is
    unrestricted, so the poles are covered. *)
Theorem generated_rotations_proper (self : ViewsphereDiscretizer) :
  (1 <= num_radii self)%Z -> (1 <= num_elev self)%Z ->
  (1 <= num_az self)%Z -> (1 <= num_roll self)%Z ->
  Forall (fun radius => radius <> 0)
         (samples (min_radius self)
            (inclusive_step (min_radius self) (max_radius self) (num_radii self))
            (inclusive_count (min_radius self) (max_radius self) (num_radii self))) ->
  exists fuel0, forall fuel, (fuel0 <= fuel)%nat ->
    exists poses,
      object_to_camera_poses fuel self = Ok poses /\
      Forall (fun T => proper_rotation (rotation T)) poses.
Proof.
  intros Hnr Hne Hna Hnro Hrad.
  exists (S (inclusive_count (min_radius self) (max_radius self) (num_radii self)
             + inclusive_count (min_elev self) (max_elev self) (num_elev self)
             + half_open_count (min_az self) (max_az self) (num_az self)
             + half_open_count (min_roll self) (max_roll self) (num_roll self))).
  intros fuel Hfuel. eexists. split.
  - apply object_to_camera_poses_grid; try assumption; lia.
  - apply Forall_forall. intros T HT.
    apply In_grid in HT. destruct HT as (radius & az & elev & roll & Hin & ->).
    apply camera_pose_proper.
    rewrite Forall_forall in Hrad. apply Hrad, Hin.
Qed.

(** Radii 1 and 2, elevations 0 (the pole) and 1. *)
Lemma generated_rotations_proper_witness :
  exists fuel0, forall fuel, (fuel0 <= fuel)%nat ->
    exists poses,
      object_to_camera_poses fuel example_sphere = Ok poses /\
      Forall (fun T => proper_rotation (rotation T)) poses.
Proof.
  apply (generated_rotations_proper example_sphere);
    try (unfold example_sphere; cbn; lia).
  unfold example_sphere, inclusive_count, inclusive_step. cbn.
  decide_cmp. cbn. repeat constructor; lra.
Defined.

(** Four poses: two radii, two elevations, one azimuth, one roll. *)
Lemma object_to_camera_poses_count_witness :
  exists fuel0, forall fuel, (fuel0 <= fuel)%nat ->
    exists poses,
      object_to_camera_poses fuel example_sphere = Ok poses /\
      poses = grid example_sphere 2 2 1 1 /\
      List.length poses = 4%nat.
Proof.
  assert (Hvalid : valid example_sphere)
    by (unfold valid, example_sphere; cbn; repeat split; try lia; lra).
  destruct (object_to_camera_poses_count example_sphere Hvalid) as [fuel0 H].
  exists fuel0. revert H.
  unfold stated_count, half_open_count, example_sphere. cbn. decide_cmp.
  intros H. exact H.
Defined.

(* ================================================================== *)
(** * Spherical coordinates: more of the round trip                *)
(* ================================================================== *)

Lemma first_true_of_taken {A : Type} (cases : list (bool * A)) (a : A) :
  filter fst cases = [(true, a)] -> first_true cases = Some a.
Proof.
  induction cases as [| [[|] v] l IH]; cbn; intros Hf.
  - discriminate Hf.
  - injection Hf as -> _. reflexivity.
  - apply IH, Hf.
Qed.

Lemma cart2sph_sph2cart_az (r az elev a : R) :
  0 < r -> 0 <= elev <= PI ->
  first_true (az_cases (r * cos az * sin elev) (r * sin az * sin elev)) = Some a ->
  cart2sph (r * cos az * sin elev) (r * sin az * sin elev) (r * cos elev)
  = Ok (r, a, elev).
Proof.
  intros Hr Hel Hft. unfold cart2sph.
  rewrite sph2cart_sq, sqrt_pow2, Hft by lra.
  replace (r * cos elev / r) with (cos elev) by (field; lra).
  rewrite acos_cos by lra. reflexivity.
Qed.

(** X1: the camera centre lies on the sphere of radius [|r|]. *)
Theorem sph2cart_on_sphere (r az elev : R) :
  let '(x, y, z) := sph2cart r az elev in
  sqrt (x ^ 2 + y ^ 2 + z ^ 2) = Rabs r.
Proof.
  unfold sph2cart. rewrite sph2cart_sq, <- Rsqr_pow2. apply sqrt_Rsqr_abs.
Qed.

Lemma az_on_axis (r az elev : R) :
  0 < r -> 0 < elev < PI ->
  az = 0 \/ az = PI / 2 \/ az = PI \/ az = 3 * PI / 2 ->
  first_true (az_cases (r * cos az * sin elev) (r * sin az * sin elev)) = Some az.
Proof.
  intros Hr Hel Hax.
  assert (Hs : 0 < sin elev) by (apply sin_gt_0; lra).
  assert (Hk : 0 < r * sin elev) by (apply Rmult_lt_0_compat; assumption).
  unfold az_cases.
  destruct Hax as [-> | [-> | [-> | ->]]].
  - rewrite cos_0, sin_0.
    replace (r * 1 * sin elev) with (r * sin elev) by ring.
    replace (r * 0 * sin elev) with 0 by ring.
    decide_cmp. reflexivity.
  - rewrite cos_PI2, sin_PI2.
    replace (r * 1 * sin elev) with (r * sin elev) by ring.
    replace (r * 0 * sin elev) with 0 by ring.
    decide_cmp. reflexivity.
  - rewrite cos_PI, sin_PI.
    replace (r * -1 * sin elev) with (- (r * sin elev)) by ring.
    replace (r * 0 * sin elev) with 0 by ring.
    decide_cmp. reflexivity.
  - replace (3 * PI / 2) with (3 * (PI / 2)) by field.
    rewrite cos_3PI2, sin_3PI2.
    replace (r * -1 * sin elev) with (- (r * sin elev)) by ring.
    replace (r * 0 * sin elev) with 0 by ring.
    decide_cmp. cbn. do 2 f_equal.
Qed.

(** X2: the round trip on the whole half-open azimuth range, axes included. *)
Theorem cart2sph_sph2cart_all_azimuths (r az elev : R) :
  0 < r -> 0 < elev < PI -> 0 <= az < 2 * PI ->
  let '(x, y, z) := sph2cart r az elev in
  cart2sph x y z = Ok (r, az, elev).
Proof.
  intros Hr Hel Haz. unfold sph2cart.
  apply cart2sph_sph2cart_az; [exact Hr | lra |].
  destruct (Req_dec_T az 0) as [E0 | N0];
    [apply az_on_axis; auto |].
  destruct (Req_dec_T az (PI / 2)) as [E1 | N1];
    [apply az_on_axis; auto |].
  destruct (Req_dec_T az PI) as [E2 | N2];
    [apply az_on_axis; auto |].
  destruct (Req_dec_T az (3 * PI / 2)) as [E3 | N3];
    [apply az_on_axis; auto |].
  apply first_true_of_taken. apply az_recovered; try assumption. lra.
Qed.

(** X3: on the poles of the sphere, and at radius zero, the round trip raises. *)
Theorem cart2sph_sph2cart_pole (r az elev : R) :
  r = 0 \/ sin elev = 0 ->
  let '(x, y, z) := sph2cart r az elev in
  cart2sph x y z = Raise (UnboundLocalError "az").
Proof.
  intros H. unfold sph2cart, cart2sph, az_cases.
  assert (Hx : r * cos az * sin elev = 0) by (destruct H as [-> | ->]; ring).
  assert (Hy : r * sin az * sin elev = 0) by (destruct H as [-> | ->]; ring).
  rewrite Hx, Hy. decide_cmp. reflexivity.
Qed.

(** Polar form in the right half plane. *)
Lemma polar_atan (x y : R) :
  0 < x ->
  0 < sqrt (x ^ 2 + y ^ 2) /\
  sqrt (x ^ 2 + y ^ 2) * cos (atan (y / x)) = x /\
  sqrt (x ^ 2 + y ^ 2) * sin (atan (y / x)) = y.
Proof.
  intros Hx.
  set (s := sqrt (1 + (y / x)²)).
  assert (Hpos : 0 < 1 + (y / x)²) by (pose proof (Rle_0_sqr (y / x)); lra).
  assert (Hs : 0 < s) by (apply sqrt_lt_R0; exact Hpos).
  assert (Hss : s * s = 1 + (y / x)²) by (apply sqrt_sqrt; lra).
  assert (Hrho : sqrt (x ^ 2 + y ^ 2) = x * s).
  { apply sqrt_lem_1; [nra | nra |].
    replace (x * s * (x * s)) with (x * x * (s * s)) by ring.
    rewrite Hss. unfold Rsqr. field. lra. }
  rewrite Hrho, cos_atan, sin_atan. fold s.
  split; [nra |]. split; field; lra.
Qed.

Lemma atan_pos_bound (t : R) : 0 < t -> 0 < atan t < PI / 2.
Proof.
  intros Ht. pose proof (atan_increasing 0 t Ht) as Hi. rewrite atan_0 in Hi.
  pose proof (atan_bound t). lra.
Qed.

(** What the case analysis of [cart2sph] binds [az] to: an angle in
    [[0, 2 pi)] that is a polar angle of [(x, y)]. *)
Lemma cart2sph_az (x y : R) :
  x <> 0 \/ y <> 0 ->
  exists az,
    first_true (az_cases x y) = Some az /\
    0 <= az < 2 * PI /\
    sqrt (x ^ 2 + y ^ 2) * cos az = x /\
    sqrt (x ^ 2 + y ^ 2) * sin az = y.
Proof.
  intros Hne. pose proof PI_RGT_0 as Hpi. unfold az_cases.
  destruct (Rtotal_order x 0) as [Hx | [Hx | Hx]];
    destruct (Rtotal_order y 0) as [Hy | [Hy | Hy]];
    try (exfalso; lra); decide_cmp; cbn [andb first_true];
    eexists; (split; [reflexivity |]).
  - (* x < 0, y < 0 *)
    destruct (polar_atan (- x) (- y) ltac:(lra)) as (_ & Hc & Hs).
    replace ((- x) ^ 2 + (- y) ^ 2) with (x ^ 2 + y ^ 2) in Hc, Hs by ring.
    replace (- y / - x) with (y / x) in Hc, Hs by (field; lra).
    assert (Ht : 0 < y / x).
    { replace (y / x) with ((- y) * / (- x)) by (field; lra).
      apply Rmult_lt_0_compat; [lra | apply Rinv_0_lt_compat; lra]. }
    pose proof (atan_pos_bound _ Ht).
    rewrite cos_plus, sin_plus, cos_PI, sin_PI. split; [lra |]. split; nra.
  - (* x < 0, y = 0 *)
    subst y. rewrite cos_PI, sin_PI.
    replace (x ^ 2 + 0 ^ 2) with ((- x) ^ 2) by ring.
    rewrite sqrt_pow2 by lra. split; [lra |]. split; ring.
  - (* x < 0, y > 0 *)
    destruct (polar_atan (- x) y ltac:(lra)) as (_ & Hc & Hs).
    replace ((- x) ^ 2 + y ^ 2) with (x ^ 2 + y ^ 2) in Hc, Hs by ring.
    replace (y / - x) with (- y / x) in Hc, Hs by (field; lra).
    assert (Ht : 0 < - y / x).
    { replace (- y / x) with (y * / (- x)) by (field; lra).
      apply Rmult_lt_0_compat; [lra | apply Rinv_0_lt_compat; lra]. }
    pose proof (atan_pos_bound _ Ht).
    rewrite cos_minus, sin_minus, cos_PI, sin_PI. split; [lra |]. split; nra.
  - (* x = 0, y < 0 *)
    subst x. replace (3 * PI / 2) with (3 * (PI / 2)) by field.
    rewrite cos_3PI2, sin_3PI2.
    replace (0 ^ 2 + y ^ 2) with ((- y) ^ 2) by ring.
    rewrite sqrt_pow2 by lra. split; [lra |]. split; ring.
  - (* x = 0, y > 0 *)
    subst x. rewrite cos_PI2, sin_PI2.
    replace (0 ^ 2 + y ^ 2) with (y ^ 2) by ring.
    rewrite sqrt_pow2 by lra. split; [lra |]. split; ring.
  - (* x > 0, y < 0 *)
    destruct (polar_atan x (- y) Hx) as (_ & Hc & Hs).
    replace (x ^ 2 + (- y) ^ 2) with (x ^ 2 + y ^ 2) in Hc, Hs by ring.
    assert (Ht : 0 < - y / x).
    { apply Rmult_lt_0_compat; [lra | apply Rinv_0_lt_compat; lra]. }
    pose proof (atan_pos_bound _ Ht).
    rewrite cos_minus, sin_minus, cos_2PI, sin_2PI. split; [lra |]. split; nra.
  - (* x > 0, y = 0 *)
    subst y. rewrite cos_0, sin_0.
    replace (x ^ 2 + 0 ^ 2) with (x ^ 2) by ring.
    rewrite sqrt_pow2 by lra. split; [lra |]. split; ring.
  - (* x > 0, y > 0 *)
    destruct (polar_atan x y Hx) as (_ & Hc & Hs).
    assert (Ht : 0 < y / x).
    { apply Rmult_lt_0_compat; [lra | apply Rinv_0_lt_compat; lra]. }
    pose proof (atan_pos_bound _ Ht).
    split; [lra |]. split; assumption.
Qed.

(** The elevation [acos (z / r)] and the planar radius. *)
Lemma cart2sph_elev (x y z : R) :
  x <> 0 \/ y <> 0 ->
  let r := sqrt (x ^ 2 + y ^ 2 + z ^ 2) in
  0 < r /\
  r * cos (acos (z / r)) = z /\
  r * sin (acos (z / r)) = sqrt (x ^ 2 + y ^ 2).
Proof.
  intros Hne r.
  assert (Hxy : 0 < x ^ 2 + y ^ 2) by (destruct Hne; nra).
  assert (Hr : 0 < r) by (apply sqrt_lt_R0; nra).
  assert (Hrr : r * r = x ^ 2 + y ^ 2 + z ^ 2) by (apply sqrt_sqrt; nra).
  assert (Hq : (z / r)² = z ^ 2 / (r * r)) by (unfold Rsqr; field; lra).
  assert (Hq1 : (z / r)² < 1).
  { rewrite Hq. apply (Rmult_lt_reg_r (r * r)); [nra |].
    replace (z ^ 2 / (r * r) * (r * r)) with (z ^ 2) by (field; lra). nra. }
  assert (Hb : -1 <= z / r <= 1).
  { unfold Rsqr in Hq1. split; nra. }
  split; [exact Hr |]. split.
  - rewrite cos_acos by exact Hb. field. lra.
  - rewrite sin_acos by exact Hb. symmetry.
    apply sqrt_lem_1; [lra | apply Rmult_le_pos; [lra | apply sqrt_pos] |].
    replace (r * sqrt (1 - (z / r)²) * (r * sqrt (1 - (z / r)²)))
      with (r * r * (sqrt (1 - (z / r)²) * sqrt (1 - (z / r)²))) by ring.
    rewrite sqrt_sqrt by lra. rewrite Hq.
    replace (r * r * (1 - z ^ 2 / (r * r))) with (r * r - z ^ 2) by (field; lra).
    rewrite Hrr. ring.
Qed.

(** X4: off the z axis [cart2sph] returns a radius [r > 0], an azimuth in
    [[0, 2 pi)] and an elevation in [[0, pi]]. *)
Theorem cart2sph_range (x y z : R) :
  x <> 0 \/ y <> 0 ->
  exists r az elev,
    cart2sph x y z = Ok (r, az, elev) /\
    0 < r /\ 0 <= az < 2 * PI /\ 0 <= elev <= PI.
Proof.
  intros Hne.
  destruct (cart2sph_az x y Hne) as (az & Hft & Haz & _).
  destruct (cart2sph_elev x y z Hne) as (Hr & _).
  unfold cart2sph. rewrite Hft.
  do 3 eexists. split; [reflexivity |].
  split; [exact Hr |]. split; [exact Haz | apply acos_bound].
Qed.

(** X5: off the z axis [sph2cart] undoes [cart2sph]. *)
Theorem sph2cart_cart2sph (x y z : R) :
  x <> 0 \/ y <> 0 ->
  exists r az elev,
    cart2sph x y z = Ok (r, az, elev) /\
    sph2cart r az elev = (x, y, z).
Proof.
  intros Hne.
  destruct (cart2sph_az x y Hne) as (az & Hft & _ & Hc & Hs).
  destruct (cart2sph_elev x y z Hne) as (_ & Hce & Hse).
  unfold cart2sph. rewrite Hft.
  do 3 eexists. split; [reflexivity |].
  unfold sph2cart.
  set (r := sqrt (x ^ 2 + y ^ 2 + z ^ 2)) in *.
  set (elev := acos (z / r)) in *.
  replace (r * cos az * sin elev) with (r * sin elev * cos az) by ring.
  replace (r * sin az * sin elev) with (r * sin elev * sin az) by ring.
  rewrite Hse, Hc, Hs, Hce. reflexivity.
Qed.

(* ================================================================== *)
(** * The geometry of a generated pose                             *)
(* ================================================================== *)

Lemma cross_perp (z x : vec3) : vdot (cross z x) z = 0.
Proof. destruct z, x. unfold vdot, cross. cbn. ring. Qed.

Lemma cross_vneg (z x : vec3) : cross z (vneg x) = vneg (cross z x).
Proof. destruct z, x. unfold cross, vneg. cbn. f_equal; ring. Qed.

(** The frame the loop body builds: a unit x axis perpendicular to the
    viewing axis [z], chosen so that the y axis [z x x] does not point up,
    and the pose as the inverse of the camera-to-object transform. *)
Lemma camera_pose_shape (radius az elev : R) :
  radius <> 0 ->
  let c := camera_center radius az elev in
  let z := vdiv (vneg c) (norm c) in
  exists x,
    unit_vec x /\ vdot x z = 0 /\ vz (cross z x) <= 0 /\
    forall roll,
      camera_pose radius az elev roll
      = inverse (mkRigidTransform (mmul (c_ x (cross z x) z) (roll_matrix roll))
                                  c "camera" "obj").
Proof.
  intros Hr. unfold camera_center, camera_pose, sph2cart, roll_matrix.
  cbv beta iota zeta.
  set (c := Vec3 (radius * cos az * sin elev) (radius * sin az * sin elev)
                 (radius * cos elev)).
  pose proof (camera_z_unit c (camera_center_norm radius az elev Hr)) as Hz.
  set (z := vdiv (vneg c) (norm c)) in *.
  destruct (camera_x_par z) as [Hx Hxz]. cbv zeta in Hx, Hxz.
  set (x := vdiv (if Reqb (norm (Vec3 (vy z) (- vx z) 0)) 0
                  then Vec3 1 0 0 else Vec3 (vy z) (- vx z) 0) _) in *.
  assert (Hxn : unit_vec (vneg x)) by (apply unit_vneg, Hx).
  assert (Hxnz : vdot (vneg x) z = 0).
  { replace (vdot (vneg x) z) with (- vdot x z)
      by (unfold vdot, vneg; cbn [vx vy vz]; ring).
    rewrite Hxz. ring. }
  rewrite (norm_of_unit _ (cross_unit x z Hx Hz Hxz)), vdiv_one.
  rewrite (norm_of_unit _ (cross_unit (vneg x) z Hxn Hz Hxnz)), vdiv_one.
  destruct (Rlt_dec 0 (vz (cross z x))) as [Hup | Hdown].
  - exists (vneg x). rewrite (Rgtb_true _ _ Hup).
    repeat split; try assumption.
    rewrite cross_vneg. unfold vneg. cbn [vz]. lra.
  - exists x. rewrite (Rgtb_false _ _ Hdown).
    repeat split; try assumption. lra.
Qed.

Lemma camera_center_scaled (c : vec3) :
  norm c <> 0 ->
  let z := vdiv (vneg c) (norm c) in
  vx c = - norm c * vx z /\ vy c = - norm c * vy z /\ vz c = - norm c * vz z.
Proof.
  intros Hn. destruct c as [c1 c2 c3]. unfold vdiv, vneg. cbn [vx vy vz].
  repeat split; field; exact Hn.
Qed.

Lemma look_at (x y z c : vec3) (roll n : R) :
  vdot x z = 0 -> vdot y z = 0 -> unit_vec z ->
  vx c = - n * vx z -> vy c = - n * vy z -> vz c = - n * vz z ->
  vneg (mvec (transpose (mmul (c_ x y z) (roll_matrix roll))) c) = Vec3 0 0 n.
Proof.
  destruct x as [x1 x2 x3], y as [y1 y2 y3], z as [z1 z2 z3], c as [c1 c2 c3].
  unfold unit_vec, vdot, vneg, mvec, transpose, mmul, c_, roll_matrix,
    col0, col1, col2, vdot. cbn.
  intros Hxz Hyz Hz -> -> ->. f_equal; nsatz.
Qed.

Lemma camera_center_norm_abs (radius az elev : R) :
  norm (camera_center radius az elev) = Rabs radius.
Proof.
  unfold camera_center, sph2cart, norm. cbn [vx vy vz].
  rewrite sph2cart_sq, <- Rsqr_pow2. apply sqrt_Rsqr_abs.
Qed.

Lemma camera_pose_translation_eq (radius az elev roll : R) :
  radius <> 0 ->
  translation (camera_pose radius az elev roll) = Vec3 0 0 (Rabs radius).
Proof.
  intros Hr.
  destruct (camera_pose_shape radius az elev Hr) as (x & Hx & Hxz & _ & Hpose).
  rewrite Hpose. cbn [inverse translation rotation].
  assert (Hn : norm (camera_center radius az elev) <> 0).
  { unfold camera_center, sph2cart. apply camera_center_norm, Hr. }
  rewrite <- (camera_center_norm_abs radius az elev).
  destruct (camera_center_scaled _ Hn) as (E1 & E2 & E3).
  apply look_at;
    [exact Hxz | apply cross_perp | apply camera_z_unit, Hn | exact E1 | exact E2 | exact E3].
Qed.

(** X6: every generated pose puts the object's origin on the optical axis, at
    distance [|radius|] in front of the camera. *)
Theorem camera_pose_translation (radius az elev roll : R) :
  radius <> 0 ->
  translation (camera_pose radius az elev roll) = Vec3 0 0 (Rabs radius) /\
  from_frame (camera_pose radius az elev roll) = "obj"%string /\
  to_frame (camera_pose radius az elev roll) = "camera"%string.
Proof.
  intros Hr. split; [apply camera_pose_translation_eq, Hr |].
  destruct (camera_pose_shape radius az elev Hr) as (x & _ & _ & _ & Hpose).
  rewrite Hpose. split; reflexivity.
Qed.

Lemma transpose_involutive (m : mat3) : transpose (transpose m) = m.
Proof. destruct m as [[a b c] [d e f] [g h i]]. reflexivity. Qed.

Lemma inverse_involutive (T : RigidTransform) :
  proper_rotation (rotation T) -> inverse (inverse T) = T.
Proof.
  intros Hp. apply proper_transpose in Hp. destruct Hp as [Ho _].
  destruct T as [[[a b c] [d e f] [g h i]] [t1 t2 t3] ff tf].
  unfold inverse. cbn [rotation translation from_frame to_frame].
  rewrite transpose_involutive.
  unfold orthonormal, mmul, transpose, col0, col1, col2, identity3, vdot in Ho.
  cbn in Ho. injection Ho as H1 H2 H3 H4 H5 H6 H7 H8 H9.
  f_equal. unfold vneg, mvec, transpose, col0, col1, col2, vdot. cbn.
  f_equal; nsatz.
Qed.

Lemma camera_frame_proper (x z : vec3) (roll : R) :
  unit_vec x -> unit_vec z -> vdot x z = 0 ->
  proper_rotation (mmul (c_ x (cross z x) z) (roll_matrix roll)).
Proof.
  intros Hx Hz Hxz. apply proper_mmul; [| apply roll_proper].
  pose proof (frame_proper x z Hx Hz Hxz) as H.
  rewrite (norm_of_unit _ (cross_unit x z Hx Hz Hxz)), vdiv_one in H. exact H.
Qed.

(** X7: inverting a generated pose gives back the camera-to-object transform of
    the source: its translation is the camera centre; inverting twice
    reproduces the pose. *)
Theorem camera_pose_inverse (radius az elev roll : R) :
  radius <> 0 ->
  translation (inverse (camera_pose radius az elev roll))
    = camera_center radius az elev /\
  from_frame (inverse (camera_pose radius az elev roll)) = "camera"%string /\
  to_frame (inverse (camera_pose radius az elev roll)) = "obj"%string /\
  inverse (inverse (camera_pose radius az elev roll))
    = camera_pose radius az elev roll.
Proof.
  intros Hr.
  destruct (camera_pose_shape radius az elev Hr) as (x & Hx & Hxz & _ & Hpose).
  assert (Hn : norm (camera_center radius az elev) <> 0).
  { unfold camera_center, sph2cart. apply camera_center_norm, Hr. }
  rewrite Hpose, inverse_involutive.
  - repeat split; reflexivity.
  - cbn [rotation]. apply camera_frame_proper;
      [exact Hx | apply camera_z_unit, Hn | exact Hxz].
Qed.

(** X8: with no roll, the camera's y axis never points up in object
    coordinates: the tie-break of the source. *)
Theorem camera_pose_up_convention (radius az elev : R) :
  radius <> 0 ->
  vz (row1 (rotation (camera_pose radius az elev 0))) <= 0.
Proof.
  intros Hr.
  destruct (camera_pose_shape radius az elev Hr) as (x & _ & _ & Hup & Hpose).
  rewrite Hpose. cbn [inverse rotation]. unfold roll_matrix.
  rewrite cos_0, sin_0.
  unfold transpose, mmul, c_, col0, col1, col2, vdot. cbn [row0 row1 row2 vx vy vz].
  lra.
Qed.

(** X9: the viewing axis (third row of the rotation) points from the camera
    centre to the object's origin, whatever the roll. *)
Theorem camera_pose_viewing_axis (radius az elev roll : R) :
  radius <> 0 ->
  row2 (rotation (camera_pose radius az elev roll))
  = vdiv (vneg (camera_center radius az elev)) (Rabs radius).
Proof.
  intros Hr.
  destruct (camera_pose_shape radius az elev Hr) as (x & _ & _ & _ & Hpose).
  rewrite Hpose, <- (camera_center_norm_abs radius az elev). cbn [inverse rotation].
  destruct (vdiv (vneg (camera_center radius az elev))
                 (norm (camera_center radius az elev))) as [z1 z2 z3].
  destruct x as [x1 x2 x3].
  unfold transpose, mmul, c_, roll_matrix, col0, col1, col2, vdot, cross.
  cbn [row0 row1 row2 vx vy vz]. f_equal; ring.
Qed.

(** X10: rolling composes on the left: the pose at roll [roll] is the pose at
    roll zero followed by the inverse roll rotation about the optical axis,
    and the translation does not depend on the roll. *)
Theorem camera_pose_roll (radius az elev roll : R) :
  radius <> 0 ->
  rotation (camera_pose radius az elev roll)
  = mmul (transpose (roll_matrix roll)) (rotation (camera_pose radius az elev 0)) /\
  translation (camera_pose radius az elev roll)
  = translation (camera_pose radius az elev 0).
Proof.
  intros Hr. split.
  - destruct (camera_pose_shape radius az elev Hr) as (x & _ & _ & _ & Hpose).
    rewrite !Hpose. cbn [inverse rotation]. unfold roll_matrix at 3.
    rewrite cos_0, sin_0.
    destruct (c_ x _ _) as [[a b c] [d e f] [g h i]].
    unfold transpose, mmul, roll_matrix, col0, col1, col2, vdot.
    cbn [row0 row1 row2 vx vy vz]. f_equal; (f_equal; ring).
  - rewrite !camera_pose_translation_eq by exact Hr. reflexivity.
Qed.

(* ================================================================== *)
(** * object_to_camera_poses: termination, bounds, divergence      *)
(* ================================================================== *)

Lemma init_accepts (rmin rmax : R) (nr : Z) (emin emax : R) (ne : Z)
    (amin amax : R) (na : Z) (romin romax : R) (nro : Z)
    (self : ViewsphereDiscretizer) :
  ViewsphereDiscretizer_init rmin rmax nr emin emax ne amin amax na romin romax nro
    = Ok self ->
  (1 <= num_radii self)%Z /\ (1 <= num_elev self)%Z /\ (1 <= num_az self)%Z /\
  self = mkViewsphereDiscretizer rmin rmax nr amin amax na emin emax ne
                                 romin romax nro.
Proof.
  unfold ViewsphereDiscretizer_init.
  destruct (nr <? 1)%Z eqn:Hr; destruct (na <? 1)%Z eqn:Ha;
    destruct (ne <? 1)%Z eqn:He; cbn [orb]; intros H; try discriminate H.
  injection H as <-. cbn. rewrite Z.ltb_ge in *. repeat split; lia.
Qed.

(** X11: in exact (real) arithmetic, every discretiser the constructor
    accepts, with [num_roll >= 1], makes [object_to_camera_poses] return: the
    loops terminate without an exception, whatever the bounds, and the list
    has the product of the per-axis counts realised in exact arithmetic as
    its length. *)
Theorem accepted_discretizer_returns
    (rmin rmax : R) (nr : Z) (emin emax : R) (ne : Z)
    (amin amax : R) (na : Z) (romin romax : R) (nro : Z)
    (self : ViewsphereDiscretizer) :
  ViewsphereDiscretizer_init rmin rmax nr emin emax ne amin amax na romin romax nro
    = Ok self ->
  (1 <= nro)%Z ->
  exists fuel0, forall fuel, (fuel0 <= fuel)%nat ->
    exists poses,
      object_to_camera_poses fuel self = Ok poses /\
      List.length poses
      = (inclusive_count rmin rmax nr * inclusive_count emin emax ne
         * half_open_count amin amax na * half_open_count romin romax nro)%nat.
Proof.
  intros Hinit Hnro.
  destruct (init_accepts _ _ _ _ _ _ _ _ _ _ _ _ _ Hinit) as (Hr & He & Ha & ->).
  cbn in Hr, He, Ha.
  exists (S (inclusive_count rmin rmax nr + inclusive_count emin emax ne
             + half_open_count amin amax na + half_open_count romin romax nro)).
  intros fuel Hfuel. eexists. split.
  - apply object_to_camera_poses_grid; cbn; try assumption; lia.
  - rewrite grid_length. reflexivity.
Qed.

Lemma length_zero_nil {A : Type} (l : list A) : List.length l = 0%nat -> l = [].
Proof. destruct l; [reflexivity | discriminate]. Qed.

(** X12: an empty range on any axis gives the empty list: an inverted radius or
    elevation range, or an azimuth or roll range with [max <= min]. *)
Theorem empty_range_no_poses (self : ViewsphereDiscretizer) :
  (1 <= num_radii self)%Z -> (1 <= num_elev self)%Z ->
  (1 <= num_az self)%Z -> (1 <= num_roll self)%Z ->
  max_radius self < min_radius self \/ max_elev self < min_elev self \/
  max_az self <= min_az self \/ max_roll self <= min_roll self ->
  exists fuel0, forall fuel, (fuel0 <= fuel)%nat ->
    object_to_camera_poses fuel self = Ok [].
Proof.
  intros Hnr Hne Hna Hnro Hempty.
  exists (S (inclusive_count (min_radius self) (max_radius self) (num_radii self)
             + inclusive_count (min_elev self) (max_elev self) (num_elev self)
             + half_open_count (min_az self) (max_az self) (num_az self)
             + half_open_count (min_roll self) (max_roll self) (num_roll self))).
  intros fuel Hfuel.
  rewrite object_to_camera_poses_grid by (try assumption; lia).
  f_equal. apply length_zero_nil. rewrite grid_length.
  unfold inclusive_count, half_open_count.
  destruct Hempty as [H | [H | [H | H]]].
  - rewrite (Rltb_true _ _ H). lia.
  - rewrite (Rltb_true (max_elev self) _ H). lia.
  - rewrite (Rltb_false (min_az self) (max_az self)) by lra. lia.
  - rewrite (Rltb_false (min_roll self) (max_roll self)) by lra. lia.
Qed.

(** A loop whose guard holds on an invariant the body keeps never stops. *)
Lemma while_never_stops {St : Type} (cond : St -> bool) (body : St -> result St)
    (inv : St -> Prop) :
  (forall s, inv s -> cond s = true /\ exists s', body s = Ok s' /\ inv s') ->
  forall fuel s, inv s -> while fuel cond body s = OutOfFuel.
Proof.
  intros Hstep. induction fuel as [| fuel IH]; intros s Hs; [reflexivity |].
  destruct (Hstep s Hs) as (Hc & s' & Hb & Hs').
  cbn [while]. rewrite Hc, Hb. cbn [bind]. apply IH, Hs'.
Qed.

(** A loop whose first iteration cannot finish does not finish. *)
Lemma while_body_out_of_fuel {St : Type} (cond : St -> bool)
    (body : St -> result St) (fuel : nat) (s : St) :
  cond s = true -> body s = OutOfFuel -> while fuel cond body s = OutOfFuel.
Proof.
  intros Hc Hb. destruct fuel as [| fuel]; [reflexivity |].
  cbn [while]. rewrite Hc, Hb. reflexivity.
Qed.

(** X13: a negative [num_roll] passes the constructor's checks, but on non-empty
    ranges the roll then steps away from [max_roll] and the call never
    returns: it runs out of any amount of fuel. *)
Theorem negative_num_roll_never_returns (self : ViewsphereDiscretizer) :
  (1 <= num_radii self)%Z -> (1 <= num_elev self)%Z -> (1 <= num_az self)%Z ->
  (num_roll self < 0)%Z ->
  min_radius self <= max_radius self -> min_elev self <= max_elev self ->
  min_az self < max_az self -> min_roll self < max_roll self ->
  forall fuel, object_to_camera_poses fuel self = OutOfFuel.
Proof.
  intros Hnr Hne Hna Hnro Hr He Ha Hro fuel.
  unfold object_to_camera_poses.
  rewrite !inclusive_inc_ok, half_open_inc_ok by assumption. cbn [bind].
  unfold py_div at 1.
  replace (num_roll self =? 0)%Z with false by (symmetry; apply Z.eqb_neq; lia).
  cbn [bind].
  set (roll_inc := (max_roll self - min_roll self) / IZR (num_roll self)).
  assert (Hinc : roll_inc < 0).
  { unfold roll_inc, Rdiv.
    assert (HN : IZR (num_roll self) < 0) by (apply (IZR_lt _ 0); lia).
    pose proof (Rinv_lt_0_compat _ HN). nra. }
  assert (Hroll : forall radius az elev acc,
    while fuel (fun '(roll, _) => Rltb roll (max_roll self))
      (fun '(roll, poses) =>
         Ok (roll + roll_inc, poses ++ [camera_pose radius az elev roll]))
      (min_roll self, acc) = OutOfFuel).
  { intros radius az elev acc.
    apply (while_never_stops _ _ (fun s => fst s <= min_roll self)); [| cbn; lra].
    intros [roll poses] Hs. cbn [fst] in Hs. split.
    - apply Rltb_true. lra.
    - eexists. split; [reflexivity |]. cbn [fst]. lra. }
  rewrite while_body_out_of_fuel; [reflexivity | apply Rleb_true; exact Hr |].
  rewrite while_body_out_of_fuel; [reflexivity | apply Rleb_true; exact He |].
  rewrite while_body_out_of_fuel; [reflexivity | apply Rltb_true; exact Ha |].
  rewrite Hroll. reflexivity.
Qed.

Lemma inclusive_step_nonneg (lo hi : R) (num : Z) :
  (1 <= num)%Z -> lo <= hi -> 0 <= inclusive_step lo hi num.
Proof.
  intros Hnum Hle. unfold inclusive_step.
  destruct (Req_dec_T hi lo) as [E | N].
  - rewrite (Reqb_true _ _ E). lra.
  - rewrite (Reqb_false _ _ N).
    destruct (num =? 1)%Z eqn:E1; [lra |]. apply Z.eqb_neq in E1.
    assert (HN : 2 <= IZR num) by (apply (IZR_le 2); lia).
    rewrite minus_IZR. apply Rlt_le, Rdiv_lt_0_compat; lra.
Qed.

(** An inclusive axis only visits values of its range. *)
Lemma inclusive_samples_in_range (lo hi : R) (num : Z) (x : R) :
  (1 <= num)%Z ->
  In x (samples lo (inclusive_step lo hi num) (inclusive_count lo hi num)) ->
  lo <= x <= hi.
Proof.
  intros Hnum Hin. apply In_samples in Hin. destruct Hin as [k [Hk ->]].
  destruct (inclusive_guard lo hi num Hnum) as [Hg _].
  specialize (Hg k Hk). unfold Rleb in Hg.
  destruct (Rle_dec _ hi) as [Hle | _]; [| discriminate Hg].
  split; [| exact Hle].
  assert (Hlohi : lo <= hi).
  { unfold inclusive_count in Hk. destruct (Rlt_dec hi lo) as [Hlt | Hge].
    - rewrite (Rltb_true _ _ Hlt) in Hk. lia.
    - lra. }
  pose proof (inclusive_step_nonneg lo hi num Hnum Hlohi).
  pose proof (pos_INR k). nra.
Qed.

(** A half-open axis only visits values of its range, never the endpoint. *)
Lemma half_open_samples_in_range (lo hi : R) (num : Z) (x : R) :
  (1 <= num)%Z ->
  In x (samples lo (half_open_step lo hi num) (half_open_count lo hi num)) ->
  lo <= x < hi.
Proof.
  intros Hnum Hin. apply In_samples in Hin. destruct Hin as [k [Hk ->]].
  destruct (half_open_guard lo hi num Hnum) as [Hg _].
  specialize (Hg k Hk). unfold Rltb in Hg.
  destruct (Rlt_dec _ hi) as [Hlt | _]; [| discriminate Hg].
  split; [| exact Hlt].
  assert (Hlohi : lo < hi).
  { unfold half_open_count in Hk. destruct (Rlt_dec lo hi) as [H | H]; [exact H |].
    rewrite (Rltb_false _ _ H) in Hk. lia. }
  assert (HN : 1 <= IZR num) by (apply (IZR_le 1); lia).
  assert (0 < half_open_step lo hi num)
    by (unfold half_open_step; apply Rdiv_lt_0_compat; lra).
  pose proof (pos_INR k). nra.
Qed.

Lemma In_grid_coordinates (self : ViewsphereDiscretizer)
    (n_radius n_elev n_az n_roll : nat) (T : RigidTransform) :
  In T (grid self n_radius n_elev n_az n_roll) ->
  exists radius az elev roll,
    In radius (samples (min_radius self)
                 (inclusive_step (min_radius self) (max_radius self) (num_radii self))
                 n_radius) /\
    In elev (samples (min_elev self)
               (inclusive_step (min_elev self) (max_elev self) (num_elev self))
               n_elev) /\
    In az (samples (min_az self)
             (half_open_step (min_az self) (max_az self) (num_az self)) n_az) /\
    In roll (samples (min_roll self)
               (half_open_step (min_roll self) (max_roll self) (num_roll self))
               n_roll) /\
    T = camera_pose radius az elev roll.
Proof.
  unfold grid. intros H.
  apply in_flat_map in H. destruct H as [radius [Hr H]].
  apply in_flat_map in H. destruct H as [elev [He H]].
  apply in_flat_map in H. destruct H as [az [Ha H]].
  apply in_map_iff in H. destruct H as [roll [<- Hro]].
  exists radius, az, elev, roll. repeat split; assumption.
Qed.

(** X14: every returned pose is the pose of a grid point inside the configured
    ranges: radius and elevation within their closed ranges, azimuth and roll
    within their half-open ranges, the upper endpoint never generated. *)
Theorem poses_within_ranges (self : ViewsphereDiscretizer) :
  (1 <= num_radii self)%Z -> (1 <= num_elev self)%Z ->
  (1 <= num_az self)%Z -> (1 <= num_roll self)%Z ->
  exists fuel0, forall fuel, (fuel0 <= fuel)%nat ->
    exists poses,
      object_to_camera_poses fuel self = Ok poses /\
      Forall (fun T => exists radius az elev roll,
                min_radius self <= radius <= max_radius self /\
                min_elev self <= elev <= max_elev self /\
                min_az self <= az < max_az self /\
                min_roll self <= roll < max_roll self /\
                T = camera_pose radius az elev roll) poses.
Proof.
  intros Hnr Hne Hna Hnro.
  exists (S (inclusive_count (min_radius self) (max_radius self) (num_radii self)
             + inclusive_count (min_elev self) (max_elev self) (num_elev self)
             + half_open_count (min_az self) (max_az self) (num_az self)
             + half_open_count (min_roll self) (max_roll self) (num_roll self))).
  intros fuel Hfuel. eexists. split.
  - apply object_to_camera_poses_grid; try assumption; lia.
  - apply Forall_forall. intros T HT.
    apply In_grid_coordinates in HT.
    destruct HT as (radius & az & elev & roll & Hr & He & Ha & Hro & ->).
    exists radius, az, elev, roll.
    split; [apply (inclusive_samples_in_range _ _ _ _ Hnr Hr) |].
    split; [apply (inclusive_samples_in_range _ _ _ _ Hne He) |].
    split; [apply (half_open_samples_in_range _ _ _ _ Hna Ha) |].
    split; [apply (half_open_samples_in_range _ _ _ _ Hnro Hro) | reflexivity].
Qed.

(** X15: with a positive minimum radius every returned transform maps object to
    camera coordinates and puts the object's origin on the optical axis, at
    a distance within the radius range. *)
Theorem poses_face_the_object (self : ViewsphereDiscretizer) :
  (1 <= num_radii self)%Z -> (1 <= num_elev self)%Z ->
  (1 <= num_az self)%Z -> (1 <= num_roll self)%Z ->
  0 < min_radius self ->
  exists fuel0, forall fuel, (fuel0 <= fuel)%nat ->
    exists poses,
      object_to_camera_poses fuel self = Ok poses /\
      Forall (fun T => exists distance,
                min_radius self <= distance <= max_radius self /\
                translation T = Vec3 0 0 distance /\
                from_frame T = "obj"%string /\ to_frame T = "camera"%string)
             poses.
Proof.
  intros Hnr Hne Hna Hnro Hpos.
  exists (S (inclusive_count (min_radius self) (max_radius self) (num_radii self)
             + inclusive_count (min_elev self) (max_elev self) (num_elev self)
             + half_open_count (min_az self) (max_az self) (num_az self)
             + half_open_count (min_roll self) (max_roll self) (num_roll self))).
  intros fuel Hfuel. eexists. split.
  - apply object_to_camera_poses_grid; try assumption; lia.
  - apply Forall_forall. intros T HT.
    apply In_grid_coordinates in HT.
    destruct HT as (radius & az & elev & roll & Hr & _ & _ & _ & ->).
    pose proof (inclusive_samples_in_range _ _ _ _ Hnr Hr) as Hrange.
    assert (Hne0 : radius <> 0) by lra.
    destruct (camera_pose_shape radius az elev Hne0) as (x & _ & _ & _ & Hpose).
    exists radius. split; [exact Hrange |]. split.
    + rewrite camera_pose_translation_eq by exact Hne0.
      rewrite Rabs_pos_eq by lra. reflexivity.
    + rewrite Hpose. split; reflexivity.
Qed.

(* ================================================================== *)
(** * StablePose: what construction guarantees                     *)
(* ================================================================== *)

Lemma det_mmul (a b : mat3) : det (mmul a b) = det a * det b.
Proof.
  destruct a as [[a1 a2 a3] [a4 a5 a6] [a7 a8 a9]].
  destruct b as [[b1 b2 b3] [b4 b5 b6] [b7 b8 b9]].
  unfold det, mmul, col0, col1, col2, vdot, cross. cbn. ring.
Qed.

Lemma det_transpose (m : mat3) : det (transpose m) = det m.
Proof.
  destruct m as [[a b c] [d e f] [g h i]].
  unfold det, transpose, col0, col1, col2, vdot, cross. cbn. ring.
Qed.

Lemma det_identity3 : det identity3 = 1.
Proof. unfold det, identity3, vdot, cross. cbn. ring. Qed.

Lemma orthonormal_det (m : mat3) : orthonormal m -> det m = 1 \/ det m = -1.
Proof.
  intros Ho. apply (f_equal det) in Ho.
  rewrite det_mmul, det_transpose, det_identity3 in Ho.
  assert (H : (det m - 1) * (det m + 1) = 0) by nra.
  apply Rmult_integral in H. destruct H; [left | right]; lra.
Qed.

Lemma orthonormal_negate_row1 (m : mat3) :
  orthonormal m -> orthonormal (negate_row1 m).
Proof.
  destruct m as [[a b c] [d e f] [g h i]].
  unfold orthonormal, negate_row1, mmul, transpose, col0, col1, col2, identity3,
    vdot, vneg. cbn.
  intros Ho. injection Ho as H1 H2 H3 H4 H5 H6 H7 H8 H9.
  f_equal; (f_equal; nsatz).
Qed.

(** X16: whatever orthonormal matrix is passed, a rotation or a reflection, the
    constructed pose holds a proper rotation, and so does its object-to-table
    transform. *)
Theorem stable_pose_of_orthonormal (p0 : R) (m : mat3) (c : vec3) (i : stp_ident) :
  orthonormal m ->
  proper_rotation (r (StablePose_init p0 m c i)) /\
  proper_rotation (rotation (T_obj_table (StablePose_init p0 m c i))).
Proof.
  intros Ho.
  assert (H : proper_rotation (r (StablePose_init p0 m c i))).
  { unfold StablePose_init.
    destruct (orthonormal_det m Ho) as [Hd | Hd]; rewrite Hd.
    - rewrite Rltb_false.
      + cbn [r]. split; assumption.
      + replace (1 + 1) with 2 by ring. rewrite Rabs_pos_eq by lra. lra.
    - rewrite Rltb_true.
      + cbn [r]. split; [apply orthonormal_negate_row1, Ho |].
        rewrite det_negate_row1, Hd. ring.
      + replace (-1 + 1) with 0 by ring. rewrite Rabs_R0. lra. }
  split; [exact H | exact H].
Qed.

(** X17: after construction the determinant is never within [0.01] of [-1], and
    constructing again from the stored fields changes nothing. *)
Theorem stable_pose_repair_is_final (p0 : R) (m : mat3) (c : vec3) (i : stp_ident) :
  let sp := StablePose_init p0 m c i in
  ~ Rabs (det (r sp) + 1) < 1 / 100 /\
  StablePose_init (p sp) (r sp) (x0 sp) (id sp) = sp.
Proof.
  intros sp.
  assert (H : ~ Rabs (det (r sp) + 1) < 1 / 100).
  { subst sp. unfold StablePose_init.
    destruct (Rlt_dec (Rabs (det m + 1)) (1 / 100)) as [Hlt | Hge].
    - rewrite (Rltb_true _ _ Hlt). cbn [r]. rewrite det_negate_row1.
      unfold Rabs in *.
      destruct (Rcase_abs (det m + 1)); destruct (Rcase_abs (- det m + 1)); lra.
    - rewrite (Rltb_false _ _ Hge). cbn [r]. exact Hge. }
  split; [exact H |].
  unfold StablePose_init at 1. rewrite (Rltb_false _ _ H).
  destruct sp; reflexivity.
Qed.

(* ================================================================== *)
(** * VirtualCamera: batches, stable poses, viewsphere wrappers    *)
(* ================================================================== *)

Section ViewsphereFacts.

Variable ndarray : Type.
Variable Mesh3D : Type.
Variable vertices : Mesh3D -> ndarray.
Variable triangles : Mesh3D -> ndarray.
Variable render_mesh :
  list mat34 -> Z -> Z -> ndarray -> ndarray -> bool ->
  list ndarray * list ndarray.
Variable elapsed : string.
Variable first_channel : ndarray -> ndarray.
Variable to_color : Image ndarray -> Image ndarray.

Local Abbreviation wrapped_images' :=
  (wrapped_images ndarray Mesh3D vertices triangles render_mesh elapsed
                  first_channel to_color).
Local Abbreviation images' :=
  (images ndarray Mesh3D vertices triangles render_mesh elapsed).

(** X18: [images] returns one binary and one depth image per transform, and logs
    the render time once. *)
Theorem images_one_per_pose self mesh (poses : list RigidTransform) debug :
  renderer_contract ndarray render_mesh ->
  List.length (fst (snd (images' self mesh poses debug))) = List.length poses /\
  List.length (snd (snd (images' self mesh poses debug))) = List.length poses /\
  fst (images' self mesh poses debug)
  = [LogDebug ("Rendering took " ++ elapsed ++ " sec")%string].
Proof.
  intros Hren. unfold images.
  match goal with
  | |- context [render_mesh ?ps ?a ?b ?c ?d ?e] =>
      destruct (Hren ps a b c d e) as [Hb Hd];
      destruct (render_mesh ps a b c d e) as [bs ds]
  end.
  cbn [fst snd] in *. rewrite length_map in Hb, Hd. auto.
Qed.

(** What a call with a recognised mode returns: the store of lines 321-331,
    the single debug record, and each wrapped image paired in order with the
    inverse of the transform kept for it. *)
Lemma wrapped_images_recognized self mesh h poses mode sp :
  renderer_contract ndarray render_mesh -> recognized mode ->
  exists ims,
    List.length ims = List.length poses /\
    wrapped_images' self mesh h poses mode sp
    = (fst (projection_poses h poses sp),
       [LogDebug ("Rendering took " ++ elapsed ++ " sec")%string],
       Some (map (fun '(image, T_obj_camera) =>
                    mkObjectRender image (inverse T_obj_camera))
                 (combine ims
                    match sp with
                    | Some _ => map (fst (projection_poses h poses sp)) poses
                    | None => snd (projection_poses h poses sp)
                    end))).
Proof.
  intros Hren Hmode. unfold wrapped_images, images.
  pose proof (projection_poses_length h poses sp) as Hlen.
  destruct (projection_poses h poses sp) as [h1 projected]. cbn [fst snd] in *.
  match goal with
  | |- context [render_mesh ?ps ?a ?b ?c ?d ?e] =>
      destruct (Hren ps a b c d e) as [Hb Hd];
      destruct (render_mesh ps a b c d e) as [bs ds]
  end.
  cbn [fst snd] in Hb, Hd. rewrite length_map, Hlen in Hb, Hd.
  destruct (wrap_recognized ndarray first_channel to_color self mode bs ds _
              Hmode Hb Hd) as [ims [-> Hims]].
  exists ims. split; [exact Hims | reflexivity].
Qed.

(** X19: with a recognised mode the call returns exactly one result per input
    transform and logs no warning. *)
Theorem wrapped_images_one_per_pose self mesh h poses mode sp :
  renderer_contract ndarray render_mesh -> recognized mode ->
  exists h' rendered_images,
    wrapped_images' self mesh h poses mode sp
    = (h', [LogDebug ("Rendering took " ++ elapsed ++ " sec")%string],
       Some rendered_images) /\
    List.length rendered_images = List.length poses.
Proof.
  intros Hren Hmode.
  destruct (wrapped_images_recognized self mesh h poses mode sp Hren Hmode)
    as [ims [Hims E]].
  do 2 eexists. split; [exact E |].
  rewrite length_map, length_combine, Hims.
  destruct sp; rewrite ?length_map, ?projection_poses_length; lia.
Qed.

(** X21: rendering again with a stable pose relabels nothing further: the store
    after a second call is the store after the first. *)
Theorem relabelling_is_idempotent self mesh h poses mode1 mode2 sp1 sp2 :
  let h1 :=
    fst (fst (wrapped_images ndarray Mesh3D vertices triangles render_mesh elapsed
                first_channel to_color self mesh h poses mode1 (Some sp1))) in
  forall l,
    fst (fst (wrapped_images ndarray Mesh3D vertices triangles render_mesh elapsed
                first_channel to_color self mesh h1 poses mode2 (Some sp2))) l
    = h1 l.
Proof.
  intros h1 l. subst h1. rewrite !wrapped_images_store.
  cbn [projection_poses]. rewrite !premultiply_store.
  destruct (in_dec Nat.eq_dec l poses); reflexivity.
Qed.

Lemma fresh_store_refs (poses : list RigidTransform) :
  map (fresh_store poses) (fresh_refs poses) = poses.
Proof.
  unfold fresh_store, fresh_refs.
  induction poses as [| T poses IH]; [reflexivity |].
  cbn [List.length seq map nth]. f_equal.
  rewrite <- seq_shift, map_map. exact IH.
Qed.

(** X22: in exact (real) arithmetic, on a discretiser with every count at
    least one and a recognised mode, [wrapped_images_viewsphere] returns one
    result per point of the exact-arithmetic grid, in grid order, each
    carrying the inverse of that grid point's pose. *)
Theorem wrapped_images_viewsphere_grid self mesh vs_disc mode :
  renderer_contract ndarray render_mesh -> recognized mode ->
  (1 <= num_radii vs_disc)%Z -> (1 <= num_elev vs_disc)%Z ->
  (1 <= num_az vs_disc)%Z -> (1 <= num_roll vs_disc)%Z ->
  let poses :=
    grid vs_disc
      (inclusive_count (min_radius vs_disc) (max_radius vs_disc) (num_radii vs_disc))
      (inclusive_count (min_elev vs_disc) (max_elev vs_disc) (num_elev vs_disc))
      (half_open_count (min_az vs_disc) (max_az vs_disc) (num_az vs_disc))
      (half_open_count (min_roll vs_disc) (max_roll vs_disc) (num_roll vs_disc)) in
  exists fuel0, forall fuel, (fuel0 <= fuel)%nat ->
    exists log rendered_images,
      wrapped_images_viewsphere ndarray Mesh3D vertices triangles render_mesh
        elapsed first_channel to_color fuel self mesh vs_disc mode None
      = Ok (log, Some rendered_images) /\
      map T_camera_obj rendered_images = map inverse poses.
Proof.
  intros Hren Hmode Hnr Hne Hna Hnro poses.
  exists (S (inclusive_count (min_radius vs_disc) (max_radius vs_disc) (num_radii vs_disc)
             + inclusive_count (min_elev vs_disc) (max_elev vs_disc) (num_elev vs_disc)
             + half_open_count (min_az vs_disc) (max_az vs_disc) (num_az vs_disc)
             + half_open_count (min_roll vs_disc) (max_roll vs_disc) (num_roll vs_disc))).
  intros fuel Hfuel. unfold wrapped_images_viewsphere.
  rewrite object_to_camera_poses_grid by (try assumption; lia).
  fold poses. cbn [bind].
  destruct (wrapped_images_recognized self mesh (fresh_store poses)
              (fresh_refs poses) mode None Hren Hmode) as [ims [Hims E]].
  rewrite E. do 2 eexists. split; [reflexivity |].
  cbn [projection_poses snd]. rewrite fresh_store_refs.
  apply poses_of_rendered.
  rewrite Hims. unfold fresh_refs. apply length_seq.
Qed.

(** X23: an exception of [object_to_camera_poses] passes through both viewsphere
    wrappers: with [num_roll = 0] they raise [ZeroDivisionError]. *)
Theorem viewsphere_wrappers_propagate self mesh vs_disc mode sp fuel :
  (1 <= num_radii vs_disc)%Z -> (1 <= num_elev vs_disc)%Z ->
  (1 <= num_az vs_disc)%Z -> num_roll vs_disc = 0%Z ->
  images_viewsphere ndarray Mesh3D vertices triangles render_mesh elapsed
    fuel self mesh vs_disc = Raise ZeroDivisionError /\
  wrapped_images_viewsphere ndarray Mesh3D vertices triangles render_mesh
    elapsed first_channel to_color fuel self mesh vs_disc mode sp
  = Raise ZeroDivisionError.
Proof.
  intros Hnr Hne Hna Hro.
  assert (E : object_to_camera_poses fuel vs_disc = Raise ZeroDivisionError).
  { unfold object_to_camera_poses.
    rewrite !inclusive_inc_ok, half_open_inc_ok by assumption. cbn [bind].
    unfold py_div. rewrite Hro. reflexivity. }
  unfold images_viewsphere, wrapped_images_viewsphere. rewrite E.
  split; reflexivity.
Qed.

End ViewsphereFacts.

(* ================================================================== *)
(** * Examples for the further properties                          *)
(* ================================================================== *)

(** On the positive x axis, on the equator. *)
Lemma cart2sph_sph2cart_all_azimuths_witness :
  let '(x, y, z) := sph2cart 1 0 (PI / 2) in
  cart2sph x y z = Ok (1, 0, PI / 2).
Proof.
  pose proof PI_RGT_0 as Hpi.
  apply (cart2sph_sph2cart_all_azimuths 1 0 (PI / 2)); lra.
Defined.

(** The north pole of the unit sphere. *)
Lemma cart2sph_sph2cart_pole_witness :
  let '(x, y, z) := sph2cart 1 0 0 in
  cart2sph x y z = Raise (UnboundLocalError "az").
Proof.
  apply (cart2sph_sph2cart_pole 1 0 0). right. exact sin_0.
Defined.

(** A point on the x axis. *)
Lemma cart2sph_range_witness :
  exists r az elev,
    cart2sph 1 0 0 = Ok (r, az, elev) /\
    0 < r /\ 0 <= az < 2 * PI /\ 0 <= elev <= PI.
Proof. apply (cart2sph_range 1 0 0). left. lra. Defined.

(** A point above the negative y axis. *)
Lemma sph2cart_cart2sph_witness :
  exists r az elev,
    cart2sph 0 (-2) 1 = Ok (r, az, elev) /\ sph2cart r az elev = (0, -2, 1).
Proof. apply (sph2cart_cart2sph 0 (-2) 1). right. lra. Defined.

(** The camera above the pole, at radius 2. *)
Lemma camera_pose_translation_witness :
  translation (camera_pose 2 0 0 0) = Vec3 0 0 (Rabs 2) /\
  from_frame (camera_pose 2 0 0 0) = "obj"%string /\
  to_frame (camera_pose 2 0 0 0) = "camera"%string.
Proof. apply (camera_pose_translation 2 0 0 0). lra. Defined.

(** The camera above the pole, at radius 2. *)
Lemma camera_pose_inverse_witness :
  translation (inverse (camera_pose 2 0 0 0)) = camera_center 2 0 0 /\
  from_frame (inverse (camera_pose 2 0 0 0)) = "camera"%string /\
  to_frame (inverse (camera_pose 2 0 0 0)) = "obj"%string /\
  inverse (inverse (camera_pose 2 0 0 0)) = camera_pose 2 0 0 0.
Proof. apply (camera_pose_inverse 2 0 0 0). lra. Defined.

(** A camera off the pole. *)
Lemma camera_pose_up_convention_witness :
  vz (row1 (rotation (camera_pose 2 0 1 0))) <= 0.
Proof. apply (camera_pose_up_convention 2 0 1). lra. Defined.

(** A rolled camera off the pole. *)
Lemma camera_pose_viewing_axis_witness :
  row2 (rotation (camera_pose 2 0 1 1))
  = vdiv (vneg (camera_center 2 0 1)) (Rabs 2).
Proof. apply (camera_pose_viewing_axis 2 0 1 1). lra. Defined.

(** A roll of one radian. *)
Lemma camera_pose_roll_witness :
  rotation (camera_pose 2 0 1 1)
  = mmul (transpose (roll_matrix 1)) (rotation (camera_pose 2 0 1 0)) /\
  translation (camera_pose 2 0 1 1) = translation (camera_pose 2 0 1 0).
Proof. apply (camera_pose_roll 2 0 1 1). lra. Defined.

(** The constructor builds [example_sphere]. *)
Lemma accepted_discretizer_returns_witness :
  exists fuel0, forall fuel, (fuel0 <= fuel)%nat ->
    exists poses,
      object_to_camera_poses fuel example_sphere = Ok poses /\
      List.length poses
      = (inclusive_count 1 2 2 * inclusive_count 0 1 2
         * half_open_count 0 1 1 * half_open_count 0 1 1)%nat.
Proof.
  apply (accepted_discretizer_returns 1 2 2 0 1 2 0 1 1 0 1 1 example_sphere).
  - reflexivity.
  - lia.
Defined.

(** The azimuth range of [example_discretizer] is empty. *)
Lemma empty_range_no_poses_witness :
  exists fuel0, forall fuel, (fuel0 <= fuel)%nat ->
    object_to_camera_poses fuel example_discretizer = Ok [].
Proof.
  apply (empty_range_no_poses example_discretizer);
    try (unfold example_discretizer; cbn; lia).
  right; right; left. unfold example_discretizer. cbn. lra.
Defined.

(** A roll count of -1, with a thousand units of fuel. *)
Lemma negative_num_roll_never_returns_witness :
  object_to_camera_poses 1000 example_reversed_roll = OutOfFuel.
Proof.
  apply (negative_num_roll_never_returns example_reversed_roll);
    unfold example_reversed_roll; cbn; try lia; lra.
Defined.

(** The four poses of [example_sphere]. *)
Lemma poses_within_ranges_witness :
  exists fuel0, forall fuel, (fuel0 <= fuel)%nat ->
    exists poses,
      object_to_camera_poses fuel example_sphere = Ok poses /\
      Forall (fun T => exists radius az elev roll,
                min_radius example_sphere <= radius <= max_radius example_sphere /\
                min_elev example_sphere <= elev <= max_elev example_sphere /\
                min_az example_sphere <= az < max_az example_sphere /\
                min_roll example_sphere <= roll < max_roll example_sphere /\
                T = camera_pose radius az elev roll) poses.
Proof.
  apply (poses_within_ranges example_sphere); unfold example_sphere; cbn; lia.
Defined.

(** The radii of [example_sphere] are 1 and 2. *)
Lemma poses_face_the_object_witness :
  exists fuel0, forall fuel, (fuel0 <= fuel)%nat ->
    exists poses,
      object_to_camera_poses fuel example_sphere = Ok poses /\
      Forall (fun T => exists distance,
                min_radius example_sphere <= distance <= max_radius example_sphere /\
                translation T = Vec3 0 0 distance /\
                from_frame T = "obj"%string /\ to_frame T = "camera"%string)
             poses.
Proof.
  apply (poses_face_the_object example_sphere);
    unfold example_sphere; cbn; try lia; lra.
Defined.

(** A reflection is turned into a rotation. *)
Lemma stable_pose_of_orthonormal_witness :
  proper_rotation (r (StablePose_init 1 reflection_z zeros3 (IdInt (-1)))) /\
  proper_rotation
    (rotation (T_obj_table (StablePose_init 1 reflection_z zeros3 (IdInt (-1))))).
Proof.
  apply (stable_pose_of_orthonormal 1 reflection_z zeros3 (IdInt (-1))).
  unfold orthonormal, reflection_z, mmul, transpose, col0, col1, col2, identity3,
    vdot. cbn. f_equal; (f_equal; ring).
Defined.

(** One transform, one image of each kind. *)
Lemma images_one_per_pose_witness :
  List.length (fst (snd (example_images example_camera tt [example_pose] false)))
    = 1%nat /\
  List.length (snd (snd (example_images example_camera tt [example_pose] false)))
    = 1%nat /\
  fst (example_images example_camera tt [example_pose] false)
    = [LogDebug "Rendering took 0.000 sec"].
Proof.
  apply (images_one_per_pose unit unit (fun _ => tt) (fun _ => tt) flat_renderer
           "0.000" example_camera tt [example_pose] false).
  exact flat_renderer_contract.
Defined.

(** Two references, two results. *)
Lemma wrapped_images_one_per_pose_witness :
  exists h' rendered_images,
    example_wrapped_images example_camera tt example_store [0%nat; 1%nat] SEGMASK
                           (Some example_stable_pose)
    = (h', [LogDebug "Rendering took 0.000 sec"], Some rendered_images) /\
    List.length rendered_images = 2%nat.
Proof.
  apply (wrapped_images_one_per_pose unit unit (fun _ => tt) (fun _ => tt)
           flat_renderer "0.000" (fun a => a) (fun im => im)
           example_camera tt example_store [0%nat; 1%nat] SEGMASK
           (Some example_stable_pose)).
  - exact flat_renderer_contract.
  - left. reflexivity.
Defined.

(** A DEPTH render around [example_sphere]. *)
Lemma wrapped_images_viewsphere_grid_witness :
  exists fuel0, forall fuel, (fuel0 <= fuel)%nat ->
    exists log rendered_images,
      example_wrapped_images_viewsphere fuel example_camera tt example_sphere
                                        DEPTH None
      = Ok (log, Some rendered_images) /\
      map T_camera_obj rendered_images
      = map inverse
          (grid example_sphere (inclusive_count 1 2 2) (inclusive_count 0 1 2)
                (half_open_count 0 1 1) (half_open_count 0 1 1)).
Proof.
  apply (wrapped_images_viewsphere_grid unit unit (fun _ => tt) (fun _ => tt)
           flat_renderer "0.000" (fun a => a) (fun im => im)
           example_camera tt example_sphere DEPTH).
  - exact flat_renderer_contract.
  - right. left. reflexivity.
  - unfold example_sphere. cbn. lia.
  - unfold example_sphere. cbn. lia.
  - unfold example_sphere. cbn. lia.
  - unfold example_sphere. cbn. lia.
Defined.

(** A roll count of zero. *)
Lemma viewsphere_wrappers_propagate_witness :
  example_images_viewsphere 5%nat example_camera tt example_zero_roll
    = Raise ZeroDivisionError /\
  example_wrapped_images_viewsphere 5%nat example_camera tt example_zero_roll
                                    DEPTH None
    = Raise ZeroDivisionError.
Proof.
  apply (viewsphere_wrappers_propagate unit unit (fun _ => tt) (fun _ => tt)
           flat_renderer "0.000" (fun a => a) (fun im => im)
           example_camera tt example_zero_roll DEPTH None 5%nat);
    unfold example_zero_roll; cbn; lia.
Defined.
